(** * The browser-side API client of [controllers/API/index.ts]

    A shallow embedding of the asynchronous wrappers around the shared HTTP
    transport [api], and the status-code / error contract of each wrapper.

    - JavaScript values decoded from a response body are the inductive
      [value]; numbers are the integers (a status code, a page offset).
    - An [async] function is a computation in the monad [M]: it threads the
      [World] (the requests handed to the transport so far and the lines
      written to the console) and ends in a [completion]: a returned value,
      a thrown exception, or a promise that never settles.
    - The transport [api] and the constant [BASE_URL_API] are imported by the
      source from other modules; they are parameters of the development. *)

From Stdlib Require Import String Ascii List ZArith Bool Lia DecimalString.
Import ListNotations.
Local Open Scope list_scope.
Local Open Scope string_scope.

(** ** JavaScript values *)

#[warnings="-register-all"]
Inductive value : Type :=
| VUndefined
| VNull
| VBool (b : bool)
| VNum (n : Z)
| VStr (s : string)
| VArr (items : list value)
| VObj (fields : list (string * value)).

(** Template-literal rendering [`${n}`] of a number whose value is the
    integer [n], for [n] below 10^21 in magnitude: there the language prints
    the plain decimal digits.  (From 10^21 on it prints an exponent; that
    range is outside this rendering, and statements about a rendered
    argument carry the bound.) *)
Definition show_number (n : Z) : string :=
  NilZero.string_of_int (Z.to_int n).

(** Own-property lookup in an object literal (keys of an object are unique). *)
Fixpoint lookup (key : string) (fields : list (string * value)) : option value :=
  match fields with
  | [] => None
  | (k, v) :: rest => if String.eqb k key then Some v else lookup key rest
  end.

(** [s.endsWith(suffix)]. *)
Definition endsWith (s suffix : string) : bool :=
  (String.length suffix <=? String.length s)%nat
  && String.eqb
       (substring (String.length s - String.length suffix)
                  (String.length suffix) s)
       suffix.

(** [hay] contains [needle] as a contiguous substring. *)
Definition contains (needle hay : string) : Prop :=
  exists pre post, hay = pre ++ needle ++ post.

(** ** Exceptions *)

Inductive type_error : Type :=
| ReadPropertyOf (target : value) (key : string)
| NotAFunction (target : value) (key : string)
| NotPrimitive (target : value).

Inductive exn : Type :=
| JsError (message : string)
| TypeError (what : type_error)
| TransportError (reason : string).

(** The outcome of converting a value to a string. *)
Inductive rendered : Type :=
| Text (s : string)
| Fails (t : type_error).

(** [ToString] of the language, as applied by [new Error(message)].  A
    decoded object that owns a [toString] entry has shadowed the built-in
    method with something that cannot be called, and its conversion fails;
    an array joins the conversions of its elements, and fails with the first
    of them that does. *)
Fixpoint to_string (v : value) : rendered :=
  match v with
  | VUndefined => Text "undefined"
  | VNull => Text "null"
  | VBool true => Text "true"
  | VBool false => Text "false"
  | VNum n => Text (show_number n)
  | VStr s => Text s
  | VArr items =>
      (fix join (l : list value) : rendered :=
         match l with
         | [] => Text ""
         | x :: rest =>
             let cell := match x with
                         | VUndefined | VNull => Text ""
                         | _ => to_string x
                         end in
             match rest with
             | [] => cell
             | _ :: _ =>
                 match cell with
                 | Fails t => Fails t
                 | Text c =>
                     match join rest with
                     | Fails t => Fails t
                     | Text r => Text (c ++ "," ++ r)
                     end
                 end
             end
         end) items
  | VObj fields =>
      match lookup "toString" fields with
      | Some _ => Fails (NotPrimitive v)
      | None => Text "[object Object]"
      end
  end.

(** ** The transport *)

Inductive Method : Type := GET | POST | PATCH | DELETE.

Inductive Payload : Type :=
| PData (v : value)
| PForm (entries : list (string * value)).

Record Request : Type := mkRequest {
  method : Method;
  url : value;
  body : option Payload;
  headers : list (string * string)
}.

Record Response : Type := mkResponse {
  status : Z;
  data : value
}.

Inductive Promise (A : Type) : Type :=
| Fulfilled (a : A)
| Rejected (e : exn).
Arguments Fulfilled {A} a.
Arguments Rejected {A} e.

(** The shared client: how it settles a request, given the requests it was
    handed before. *)
Record Transport : Type := mkTransport {
  respond : list Request -> Request -> Promise Response
}.

(** ** Computations *)

Inductive log_arg : Type :=
| LStr (s : string)
| LExn (e : exn).

Inductive log_level : Type := LevelLog | LevelError.

Record World : Type := mkWorld {
  sent : list Request;
  console : list (log_level * list log_arg)
}.

Inductive completion (A : Type) : Type :=
| Return (a : A)
| Throw (e : exn)
| Pending.
Arguments Return {A} a.
Arguments Throw {A} e.
Arguments Pending {A}.

Definition M (A : Type) : Type := World -> completion A * World.

Definition ret {A} (a : A) : M A := fun w => (Return a, w).

Definition throw {A} (e : exn) : M A := fun w => (Throw e, w).

Definition bind {A B} (m : M A) (k : A -> M B) : M B :=
  fun w =>
    match m w with
    | (Return a, w') => k a w'
    | (Throw e, w') => (Throw e, w')
    | (Pending, w') => (Pending, w')
    end.

Notation "x <- m ;; k" := (bind m (fun x => k))
  (at level 61, m at next level, right associativity).
Notation "m ;;; k" := (bind m (fun _ => k))
  (at level 61, right associativity).

(** [try { m } catch (error) { handler error }]. *)
Definition try_catch {A} (m : M A) (handler : exn -> M A) : M A :=
  fun w =>
    match m w with
    | (Throw e, w') => handler e w'
    | other => other
    end.

(** [await p]. *)
Definition await {A} (p : Promise A) : M A :=
  match p with
  | Fulfilled a => ret a
  | Rejected e => throw e
  end.

Definition console_write (level : log_level) (args : list log_arg) : M unit :=
  fun w => (Return tt, mkWorld (sent w) (console w ++ [(level, args)])%list).

Definition console_error := console_write LevelError.
Definition console_log := console_write LevelLog.

(** [new Error(message)]: an absent message leaves the empty string; a
    message that cannot be converted to a string raises instead. *)
Definition new_Error (message : value) : M exn :=
  match message with
  | VUndefined => ret (JsError "")
  | _ =>
      match to_string message with
      | Text s => ret (JsError s)
      | Fails t => throw (TypeError t)
      end
  end.

(** Property read [v.key], for the keys this file reads ([name],
    [download_url], [detail], [stargazers_count]): none of them lives on a
    built-in prototype, so a primitive or an array yields [undefined]. *)
Definition get_prop (v : value) (key : string) : M value :=
  match v with
  | VUndefined | VNull => throw (TypeError (ReadPropertyOf v key))
  | VObj fields =>
      match lookup key fields with
      | Some x => ret x
      | None => ret VUndefined
      end
  | _ => ret VUndefined
  end.

Definition run {A} (m : M A) (w : World) : completion A := fst (m w).
Definition after {A} (m : M A) (w : World) : World := snd (m w).

(** ** Form encoding

    [new URLSearchParams({...}).toString()]: the
    application/x-www-form-urlencoded serialisation, byte by byte.  A
    [string] holds the UTF-8 bytes of a text, which is what the serialiser
    works on; text that is not well-formed Unicode (a lone surrogate) has no
    UTF-8 form, and the platform replaces it before encoding. *)

Definition hex_digit (n : nat) : ascii :=
  ascii_of_nat (if (n <? 10)%nat then 48 + n else 55 + n).

Definition form_safe (c : ascii) : bool :=
  let n := nat_of_ascii c in
  ((48 <=? n) && (n <=? 57) || (65 <=? n) && (n <=? 90)
   || (97 <=? n) && (n <=? 122)
   || (n =? 42) || (n =? 45) || (n =? 46) || (n =? 95))%nat.

Definition form_encode_byte (c : ascii) : string :=
  if form_safe c then String c ""
  else if (nat_of_ascii c =? 32)%nat then "+"
  else String "%" (String (hex_digit (nat_of_ascii c / 16))
                     (String (hex_digit (nat_of_ascii c mod 16)) "")).

Fixpoint form_encode (s : string) : string :=
  match s with
  | EmptyString => ""
  | String c rest => form_encode_byte c ++ form_encode rest
  end.

Fixpoint URLSearchParams_toString (params : list (string * string)) : string :=
  match params with
  | [] => ""
  | (k, v) :: rest =>
      let pair := form_encode k ++ "=" ++ form_encode v in
      match rest with
      | [] => pair
      | _ :: _ => pair ++ "&" ++ URLSearchParams_toString rest
      end
  end.

(** ** [Promise.all]

    The promises settle in the order [schedule] lists their indices.  The
    first rejection to arrive rejects the whole; once every promise has been
    fulfilled the values are delivered in index order; a schedule that ends
    before that leaves the result pending. *)

Fixpoint collect {A} (ps : list (Promise A)) : option (list A) :=
  match ps with
  | [] => Some []
  | Fulfilled a :: rest =>
      match collect rest with
      | Some l => Some (a :: l)
      | None => None
      end
  | Rejected _ :: _ => None
  end.

Definition all_arrived (n : nat) (arrived : list nat) : bool :=
  forallb (fun i => existsb (Nat.eqb i) arrived) (seq 0 n).

Fixpoint settle_all {A} (ps : list (Promise A)) (schedule arrived : list nat)
  : completion (list A) :=
  if all_arrived (List.length ps) arrived then
    match collect ps with
    | Some l => Return l
    | None => Pending
    end
  else
    match schedule with
    | [] => Pending
    | i :: later =>
        match nth_error ps i with
        | Some (Rejected e) => Throw e
        | Some (Fulfilled _) => settle_all ps later (i :: arrived)
        | None => settle_all ps later arrived
        end
    end.

Definition Promise_all {A} (ps : list (Promise A)) (schedule : list nat)
  : M (list A) :=
  fun w => (settle_all ps schedule [], w).

(** ** Typed inputs *)

Record FlowType : Type := mkFlow {
  flow_name : string;
  flow_id : string;
  flow_data : value;
  flow_description : string;
  flow_style : option value
}.

Record LoginType : Type := mkLogin {
  username : string;
  password : string
}.

(** ** The client *)

Definition GITHUB_API_URL : string := "https://api.github.com".

Definition examples_url : string :=
  "https://api.github.com/repos/logspace-ai/langflow_examples/contents/examples?ref=main".

Definition json_headers : list (string * string) :=
  [("accept", "application/json"); ("Content-Type", "application/json")].

Definition form_headers : list (string * string) :=
  [("Content-Type", "application/x-www-form-urlencoded")].

(** [file.name.endsWith(".json")], the predicate of the listing filter. *)
Definition is_json_file (file : value) : M bool :=
  name <- get_prop file "name" ;;
  match name with
  | VStr s => ret (endsWith s ".json")
  | VUndefined | VNull => throw (TypeError (ReadPropertyOf name "endsWith"))
  | _ => throw (TypeError (NotAFunction name "endsWith"))
  end.

(** [items.filter(pred)] on a list of values. *)
Fixpoint filterM (pred : value -> M bool) (items : list value) : M (list value) :=
  match items with
  | [] => ret []
  | x :: rest =>
      keep <- pred x ;;
      kept <- filterM pred rest ;;
      ret (if keep then x :: kept else kept)
  end.

(** [v.filter(pred)]: only an array has the method. *)
Definition js_filter (v : value) (pred : value -> M bool) : M (list value) :=
  match v with
  | VArr items => filterM pred items
  | VUndefined | VNull => throw (TypeError (ReadPropertyOf v "filter"))
  | _ => throw (TypeError (NotAFunction v "filter"))
  end.

(** The body of an [async] arrow function started from synchronous code: it
    runs up to its first suspension and hands back its promise; an exception
    on the way rejects the promise instead of unwinding the caller. *)
Definition spawn {A} (m : M (Promise A)) : M (Promise A) :=
  fun w =>
    match m w with
    | (Return p, w') => (Return p, w')
    | (Throw e, w') => (Return (Rejected e), w')
    | (Pending, w') => (Pending, w')
    end.

Definition then_data (p : Promise Response) : Promise value :=
  match p with
  | Fulfilled r => Fulfilled (data r)
  | Rejected e => Rejected e
  end.

(** [items.map(f)] with an effectful [f], left to right. *)
Fixpoint mapM {A B} (f : A -> M B) (items : list A) : M (list B) :=
  match items with
  | [] => ret []
  | x :: rest =>
      y <- f x ;;
      ys <- mapM f rest ;;
      ret (y :: ys)
  end.

Section Client.

Variable BASE_URL_API : string.
Variable api : Transport.

(** Handing a request to the transport records it and yields its promise. *)
Definition api_request (r : Request) : M (Promise Response) :=
  fun w => (Return (respond api (sent w) r),
            mkWorld (sent w ++ [r])%list (console w)).

Definition api_get (u : value) : M (Promise Response) :=
  api_request (mkRequest GET u None []).

Definition api_delete (u : value) : M (Promise Response) :=
  api_request (mkRequest DELETE u None []).

Definition api_post (u : value) (b : option Payload)
           (h : list (string * string)) : M (Promise Response) :=
  api_request (mkRequest POST u b h).

Definition api_patch (u : value) (b : option Payload) : M (Promise Response) :=
  api_request (mkRequest PATCH u b []).

Definition http_error (observed : Z) : exn :=
  JsError ("HTTP error! status: " ++ show_number observed).

Definition getRepoStars (owner repo : string) : M value :=
  try_catch
    (p <- api_get (VStr (GITHUB_API_URL ++ "/repos/" ++ owner ++ "/" ++ repo)) ;;
     response <- await p ;;
     get_prop (data response) "stargazers_count")
    (fun error =>
       console_error [LStr "Error fetching repository data:"; LExn error] ;;;
       ret VNull).

Definition fetch_content (file : value) : M (Promise value) :=
  spawn (target <- get_prop file "download_url" ;;
         p <- api_get target ;;
         ret (then_data p)).

(** [schedule] is the order in which the follow-up downloads settle. *)
Definition getExamples (schedule : list nat) : M value :=
  p <- api_get (VStr examples_url) ;;
  response <- await p ;;
  jsonFiles <- js_filter (data response) is_json_file ;;
  contentsPromises <- mapM fetch_content jsonFiles ;;
  contents <- Promise_all contentsPromises schedule ;;
  ret (VArr contents).

Definition flow_payload (f : FlowType) : Payload :=
  PData (VObj [("name", VStr (flow_name f));
               ("data", flow_data f);
               ("description", VStr (flow_description f))]).

Definition saveFlowToDatabase (newFlow : FlowType) : M value :=
  try_catch
    (p <- api_post (VStr (BASE_URL_API ++ "flows/"))
                   (Some (flow_payload newFlow)) [] ;;
     response <- await p ;;
     if negb (status response =? 201)%Z
     then throw (http_error (status response))
     else ret (data response))
    (fun error => console_error [LExn error] ;;; throw error).

(** A fulfilled request always carries a response, so the optional chaining
    of [response?.status] never short-circuits. *)
Definition updateFlowInDatabase (updatedFlow : FlowType) : M value :=
  try_catch
    (p <- api_patch (VStr (BASE_URL_API ++ "flows/" ++ flow_id updatedFlow))
                    (Some (flow_payload updatedFlow)) ;;
     response <- await p ;;
     if negb (status response =? 200)%Z
     then throw (http_error (status response))
     else ret (data response))
    (fun error => console_error [LExn error] ;;; throw error).

Definition uploadFlowsToDatabase (flows : list (string * value)) : M value :=
  try_catch
    (p <- api_post (VStr (BASE_URL_API ++ "flows/upload/"))
                   (Some (PForm flows)) [] ;;
     response <- await p ;;
     if negb (status response =? 201)%Z
     then throw (http_error (status response))
     else ret (data response))
    (fun error => console_error [LExn error] ;;; throw error).

Definition deleteFlowFromDatabase (flowId : string) : M value :=
  try_catch
    (p <- api_delete (VStr (BASE_URL_API ++ "flows/" ++ flowId)) ;;
     response <- await p ;;
     if negb (status response =? 200)%Z
     then throw (http_error (status response))
     else ret (data response))
    (fun error => console_error [LExn error] ;;; throw error).

Definition saveFlowStyleToDatabase (flowStyle : value) : M value :=
  try_catch
    (p <- api_post (VStr (BASE_URL_API ++ "flow_styles/"))
                   (Some (PData flowStyle)) json_headers ;;
     response <- await p ;;
     if negb (status response =? 201)%Z
     then throw (http_error (status response))
     else ret (data response))
    (fun error => console_error [LExn error] ;;; throw error).

Definition onLogin (user : LoginType) : M value :=
  try_catch
    (p <- api_post (VStr (BASE_URL_API ++ "login"))
                   (Some (PData (VStr (URLSearchParams_toString
                                         [("username", username user);
                                          ("password", password user)]))))
                   form_headers ;;
     response <- await p ;;
     if (status response =? 200)%Z
     then ret (data response)
     else ret VUndefined)
    (fun error => throw error).

Definition autoLogin : M value :=
  try_catch
    (p <- api_get (VStr (BASE_URL_API ++ "auto_login")) ;;
     response <- await p ;;
     if (status response =? 200)%Z
     then ret (data response)
     else ret VUndefined)
    (fun error => throw error).

(** A string is truthy unless it is empty. *)
Definition truthy (s : string) : bool :=
  match s with
  | EmptyString => false
  | String _ _ => true
  end.

(** The result is the whole response envelope, or nothing ([undefined]). *)
Definition renewAccessToken (token : string) : M (option Response) :=
  try_catch
    (if truthy token
     then
       p <- api_post (VStr (BASE_URL_API ++ "refresh?token=" ++ token)) None [] ;;
       response <- await p ;;
       ret (Some response)
     else ret None)
    (fun error => console_log [LStr "Error:"; LExn error] ;;; throw error).

(** The [try] block either returns ([Some]) or falls through ([None]) to the
    statement after it. *)
Definition getLoggedUser : M value :=
  returned <-
    try_catch
      (p <- api_get (VStr (BASE_URL_API ++ "users/whoami")) ;;
       res <- await p ;;
       if (status res =? 200)%Z then ret (Some (data res)) else ret None)
      (fun error => console_log [LStr "Error:"; LExn error] ;;; throw error) ;;
  match returned with
  | Some v => ret v
  | None => ret VNull
  end.

Definition addUser (user : value) : M value :=
  try_catch
    (p <- api_post (VStr (BASE_URL_API ++ "users/")) (Some (PData user)) [] ;;
     res <- await p ;;
     if negb (status res =? 201)%Z
     then (detail <- get_prop (data res) "detail" ;;
           error <- new_Error detail ;;
           throw error)
     else ret (data res))
    (fun error => console_log [LStr "Error:"; LExn error] ;;; throw error).

Definition getUsersPage (skip limit : Z) : M value :=
  returned <-
    try_catch
      (p <- api_get (VStr (BASE_URL_API ++ "users/?skip=" ++ show_number skip
                             ++ "&limit=" ++ show_number limit)) ;;
       res <- await p ;;
       if (status res =? 200)%Z then ret (Some (data res)) else ret None)
      (fun error => console_log [LStr "Error:"; LExn error] ;;; throw error) ;;
  match returned with
  | Some v => ret v
  | None => ret (VArr [])
  end.

Definition deleteUser (user_id : string) : M value :=
  try_catch
    (p <- api_delete (VStr (BASE_URL_API ++ "users/" ++ user_id)) ;;
     res <- await p ;;
     if (status res =? 200)%Z then ret (data res) else ret VUndefined)
    (fun error => console_log [LStr "Error:"; LExn error] ;;; throw error).

Definition updateUser (user_id : string) (user : value) : M value :=
  try_catch
    (p <- api_patch (VStr (BASE_URL_API ++ "users/" ++ user_id))
                    (Some (PData user)) ;;
     res <- await p ;;
     if (status res =? 200)%Z then ret (data res) else ret VUndefined)
    (fun error => console_log [LStr "Error:"; LExn error] ;;; throw error).

Definition resetPassword (user_id : string) (user : value) : M value :=
  try_catch
    (p <- api_patch (VStr (BASE_URL_API ++ "users/" ++ user_id
                             ++ "/reset-password"))
                    (Some (PData user)) ;;
     res <- await p ;;
     if (status res =? 200)%Z then ret (data res) else ret VUndefined)
    (fun error => console_log [LStr "Error:"; LExn error] ;;; throw error).

Definition getApiKey : M value :=
  try_catch
    (p <- api_get (VStr (BASE_URL_API ++ "api_key/")) ;;
     res <- await p ;;
     if (status res =? 200)%Z then ret (data res) else ret VUndefined)
    (fun error => console_log [LStr "Error:"; LExn error] ;;; throw error).

Definition createApiKey (name : string) : M value :=
  try_catch
    (p <- api_post (VStr (BASE_URL_API ++ "api_key/"))
                   (Some (PData (VObj [("name", VStr name)]))) [] ;;
     res <- await p ;;
     if (status res =? 200)%Z then ret (data res) else ret VUndefined)
    (fun error => console_log [LStr "Error:"; LExn error] ;;; throw error).

Definition deleteApiKey (api_key : string) : M value :=
  try_catch
    (p <- api_delete (VStr (BASE_URL_API ++ "api_key/" ++ api_key)) ;;
     res <- await p ;;
     if (status res =? 200)%Z then ret (data res) else ret VUndefined)
    (fun error => console_log [LStr "Error:"; LExn error] ;;; throw error).

(** *** Operations that hand back the whole response *)

Definition getAll : M Response :=
  p <- api_get (VStr (BASE_URL_API ++ "all")) ;;
  await p.

Definition sendAll (payload : value) : M Response :=
  p <- api_post (VStr (BASE_URL_API ++ "predict")) (Some (PData payload)) [] ;;
  await p.

Definition postValidateCode (code : string) : M Response :=
  p <- api_post (VStr (BASE_URL_API ++ "validate/code"))
                (Some (PData (VObj [("code", VStr code)]))) [] ;;
  await p.

Definition postValidatePrompt (name template : string) (frontend_node : value)
  : M Response :=
  p <- api_post (VStr (BASE_URL_API ++ "validate/prompt"))
                (Some (PData (VObj [("name", VStr name);
                                    ("template", VStr template);
                                    ("frontend_node", frontend_node)]))) [] ;;
  await p.

Definition getHealth : M Response :=
  p <- api_get (VStr "/health") ;;
  await p.

Definition getBuildStatus (flowId : string) : M Response :=
  p <- api_get (VStr (BASE_URL_API ++ "build/" ++ flowId ++ "/status")) ;;
  await p.

(** The second argument is not used by the source either. *)
Definition postCustomComponent (code : string) (apiClass : value)
  : M Response :=
  p <- api_post (VStr (BASE_URL_API ++ "custom_component"))
                (Some (PData (VObj [("code", VStr code)]))) [] ;;
  await p.

Definition getVersion : M value :=
  p <- api_get (VStr (BASE_URL_API ++ "version")) ;;
  respnose <- await p ;;
  ret (data respnose).

(** *** Reading flows *)

Definition readFlowsFromDatabase : M value :=
  try_catch
    (p <- api_get (VStr (BASE_URL_API ++ "flows/")) ;;
     response <- await p ;;
     if negb (status response =? 200)%Z
     then throw (http_error (status response))
     else ret (data response))
    (fun error => console_error [LExn error] ;;; throw error).

Definition downloadFlowsFromDatabase : M value :=
  try_catch
    (p <- api_get (VStr (BASE_URL_API ++ "flows/download/")) ;;
     response <- await p ;;
     if negb (status response =? 200)%Z
     then throw (http_error (status response))
     else ret (data response))
    (fun error => console_error [LExn error] ;;; throw error).

Definition getFlowFromDatabase (flowId : Z) : M value :=
  try_catch
    (p <- api_get (VStr (BASE_URL_API ++ "flows/" ++ show_number flowId)) ;;
     response <- await p ;;
     if negb (status response =? 200)%Z
     then throw (http_error (status response))
     else ret (data response))
    (fun error => console_error [LExn error] ;;; throw error).

Definition getFlowStylesFromDatabase : M value :=
  try_catch
    (p <- api_get (VStr (BASE_URL_API ++ "flow_styles/")) ;;
     response <- await p ;;
     if negb (status response =? 200)%Z
     then throw (http_error (status response))
     else ret (data response))
    (fun error => console_error [LExn error] ;;; throw error).

End Client.

(** ** Contracts *)

(** Running [op] from [w] hands the transport exactly one request, and the
    transport settles that request as [p]. *)
Definition exchange {A} (api : Transport) (op : M A) (w : World)
           (p : Promise Response) : Prop :=
  exists r, sent (after op w) = (sent w ++ [r])%list
            /\ respond api (sent w) r = p.

(** The operation raises an [Error] whose message satisfies [P]. *)
Definition raises {A} (c : completion A) (P : string -> Prop) : Prop :=
  exists msg, c = Throw (JsError msg) /\ P msg.

(** Strict policy: the expected status yields the body, any other status
    raises an error that mentions the observed status. *)
Definition status_contract (api : Transport) (op : M value) (expected : Z)
  : Prop :=
  forall w resp,
    exchange api op w (Fulfilled resp) ->
    (status resp = expected -> run op w = Return (data resp))
    /\ (status resp <> expected ->
        raises (run op w) (contains (show_number (status resp)))).

(** Lenient policy: the expected status yields the body, any other status
    yields [fallback] and nothing is raised. *)
Definition lenient_contract (api : Transport) (op : M value) (expected : Z)
           (fallback : value) : Prop :=
  forall w resp,
    exchange api op w (Fulfilled resp) ->
    (status resp = expected -> run op w = Return (data resp))
    /\ (status resp <> expected -> run op w = Return fallback).

(** Policy of [addUser]: a mismatch raises, and when the body is an object
    whose [detail] is a string, that string is the message of the error. *)
Definition detail_contract (api : Transport) (op : M value) (expected : Z)
  : Prop :=
  forall w resp,
    exchange api op w (Fulfilled resp) ->
    (status resp = expected -> run op w = Return (data resp))
    /\ (status resp <> expected ->
        exists e, run op w = Throw e
                  /\ forall fields d,
                      data resp = VObj fields ->
                      lookup "detail" fields = Some (VStr d) ->
                      e = JsError d).

(** Whatever the transport does, the operation hands it exactly one
    request. *)
Definition one_request {A} (op : M A) : Prop :=
  forall w, exists r, sent (after op w) = (sent w ++ [r])%list.


(** Pure reading of a property: [undefined] when it is absent. *)
Definition prop_or_undefined (v : value) (key : string) : value :=
  match v with
  | VObj fields =>
      match lookup key fields with
      | Some x => x
      | None => VUndefined
      end
  | _ => VUndefined
  end.

(** A directory listing: every entry is an object with a string [name]. *)
Definition listing_entry (file : value) : Prop :=
  exists fields s, file = VObj fields /\ lookup "name" fields = Some (VStr s).

(** The entries whose name ends in [.json]. *)
Definition json_name (file : value) : bool :=
  match prop_or_undefined file "name" with
  | VStr s => endsWith s ".json"
  | _ => false
  end.

Definition listing_request : Request :=
  mkRequest GET (VStr examples_url) None [].

Definition download_request (file : value) : Request :=
  mkRequest GET (prop_or_undefined file "download_url") None [].

(** How the transport settles the downloads of [files], handed over one
    after the other starting from the history [hist]. *)
Fixpoint follow_ups (api : Transport) (hist : list Request)
         (files : list value) : list (Promise Response) :=
  match files with
  | [] => []
  | f :: rest =>
      respond api hist (download_request f)
      :: follow_ups api (hist ++ [download_request f])%list rest
  end.

(** Every one of the [n] promises settles at some point of the schedule. *)
Definition complete (schedule : list nat) (n : nat) : Prop :=
  forall i, (i < n)%nat -> In i schedule.

(** ** Sample backends and inputs *)

Definition empty_world : World := mkWorld [] [].

Definition constant_api (p : Promise Response) : Transport :=
  mkTransport (fun _ _ => p).

Definition sample_flow : FlowType :=
  mkFlow "f1" "ignored-locally" (VObj [("nodes", VArr []); ("edges", VArr [])])
         "d" (Some (VObj [("color", VStr "red")])).

Definition sample_saved_flow : value :=
  VObj [("id", VStr "abc"); ("name", VStr "f1");
        ("data", VObj [("nodes", VArr []); ("edges", VArr [])]);
        ("description", VStr "d")].

Definition sample_listing : list value :=
  [VObj [("name", VStr "a.json"); ("download_url", VStr "u/a")];
   VObj [("name", VStr "README.md"); ("download_url", VStr "u/readme")];
   VObj [("name", VStr "b.json"); ("download_url", VStr "u/b")]].

(** A backend for the examples: the listing, then one body per download;
    [broken] names a download that fails. *)
Definition examples_api (broken : string) : Transport :=
  mkTransport (fun _ r =>
    match url r with
    | VStr u =>
        if String.eqb u examples_url
        then Fulfilled (mkResponse 200 (VArr sample_listing))
        else if String.eqb u broken
             then Rejected (TransportError "Network Error")
             else Fulfilled (mkResponse 200 (VObj [("from", VStr u)]))
    | _ => Rejected (TransportError "Network Error")
    end).

(** ** Further contracts *)

(** What awaiting the promise [p] gives. *)
Definition outcome_of {A} (p : Promise A) : completion A :=
  match p with
  | Fulfilled a => Return a
  | Rejected e => Throw e
  end.

(** The operation hands back the settlement of its one request as it is,
    whatever the status, and writes nothing to the console. *)
Definition envelope_contract (api : Transport) (op : M Response) : Prop :=
  forall w p,
    exchange api op w p ->
    run op w = outcome_of p /\ console (after op w) = console w.

(** Whatever the transport does, the operation hands it exactly the request
    [r] and nothing else. *)
Definition sends_only {A} (op : M A) (r : Request) : Prop :=
  forall w, sent (after op w) = (sent w ++ [r])%list.

(** Every failure of the operation is written once to [console.error]
    (the error itself, nothing else); a success writes nothing. *)
Definition logs_failures {A} (op : M A) : Prop :=
  forall w,
    match op w with
    | (Return _, w') => console w' = console w
    | (Throw e, w') =>
        console w' = (console w ++ [(LevelError, [LExn e])])%list
    | (Pending, _) => False
    end.

(** An error raised by the transport reaches the caller unchanged, after the
    console has received [line e]. *)
Definition rethrows {A} (api : Transport) (op : M A)
           (line : exn -> list (log_level * list log_arg)) : Prop :=
  forall w e,
    exchange api op w (Rejected e) ->
    run op w = Throw e /\ console (after op w) = (console w ++ line e)%list.

(** A response, whatever its status, leaves nothing on the console. *)
Definition quiet_on_response {A} (api : Transport) (op : M A) : Prop :=
  forall w resp,
    exchange api op w (Fulfilled resp) -> console (after op w) = console w.

Definition error_line (e : exn) : list (log_level * list log_arg) :=
  [(LevelError, [LExn e])].

Definition log_line (e : exn) : list (log_level * list log_arg) :=
  [(LevelLog, [LStr "Error:"; LExn e])].

Definition no_line (e : exn) : list (log_level * list log_arg) := [].

(** The bytes are the UTF-8 encoding of well-formed Unicode text: no
    overlong form, no surrogate, nothing above U+10FFFF. *)
Definition utf8_tail (c : ascii) : bool :=
  ((128 <=? nat_of_ascii c) && (nat_of_ascii c <=? 191))%nat.

Definition between (lo hi : nat) (c : ascii) : bool :=
  ((lo <=? nat_of_ascii c) && (nat_of_ascii c <=? hi))%nat.

Fixpoint utf8_valid (s : string) : bool :=
  match s with
  | EmptyString => true
  | String c1 r1 =>
      if between 0 127 c1 then utf8_valid r1
      else
        match r1 with
        | EmptyString => false
        | String c2 r2 =>
            if between 194 223 c1 then utf8_tail c2 && utf8_valid r2
            else
              match r2 with
              | EmptyString => false
              | String c3 r3 =>
                  if between 224 239 c1 then
                    (if between 224 224 c1 then between 160 191 c2
                     else if between 237 237 c1 then between 128 159 c2
                     else utf8_tail c2)
                    && utf8_tail c3 && utf8_valid r3
                  else
                    match r3 with
                    | EmptyString => false
                    | String c4 r4 =>
                        between 240 244 c1
                        && (if between 240 240 c1 then between 144 191 c2
                            else if between 244 244 c1 then between 128 143 c2
                            else utf8_tail c2)
                        && utf8_tail c3 && utf8_tail c4 && utf8_valid r4
                    end
              end
        end
  end.

(** The characters a form-encoded component is made of. *)
Definition form_output_char (c : ascii) : bool :=
  form_safe c || (nat_of_ascii c =? 43)%nat || (nat_of_ascii c =? 37)%nat.

Fixpoint string_forallb (P : ascii -> bool) (s : string) : bool :=
  match s with
  | EmptyString => true
  | String c rest => P c && string_forallb P rest
  end.

Definition unhex_digit (c : ascii) : option nat :=
  let n := nat_of_ascii c in
  if ((48 <=? n) && (n <=? 57))%nat then Some (n - 48)%nat
  else if ((65 <=? n) && (n <=? 70))%nat then Some (n - 55)%nat
  else None.

(** Reads back the first encoded byte; the inverse that shows the encoding
    loses nothing. *)
Definition form_decode_first (s : string) : option (ascii * string) :=
  match s with
  | EmptyString => None
  | String c rest =>
      if (nat_of_ascii c =? 43)%nat then Some (ascii_of_nat 32, rest)
      else if (nat_of_ascii c =? 37)%nat then
        match rest with
        | String h (String l rest') =>
            match unhex_digit h, unhex_digit l with
            | Some a, Some b => Some (ascii_of_nat (16 * a + b), rest')
            | _, _ => None
            end
        | _ => None
        end
      else Some (c, rest)
  end.

(** A backend for the examples in which every download fails with an error
    of its own. *)
Definition failing_downloads_api : Transport :=
  mkTransport (fun _ r =>
    match url r with
    | VStr u =>
        if String.eqb u examples_url
        then Fulfilled (mkResponse 200 (VArr sample_listing))
        else Rejected (TransportError u)
    | _ => Rejected (TransportError "Network Error")
    end).

Definition malformed_listing : list value :=
  [VObj [("name", VStr "a.json"); ("download_url", VStr "u/a")];
   VObj [("download_url", VStr "u/nameless")]].

(** * Proofs *)

Section Contracts.

Variable BASE_URL_API : string.
Variable api : Transport.

Lemma app_singleton_inv (A : Type) (l : list A) (x y : A) :
  (l ++ [x])%list = (l ++ [y])%list -> x = y.
Proof.
  intros H. apply app_inv_head in H. now inversion H.
Qed.

Lemma append_empty_r (s : string) : s ++ "" = s.
Proof.
  induction s as [|c s IH]; simpl; [reflexivity | now rewrite IH].
Qed.

Lemma contains_suffix (pre s : string) : contains s (pre ++ s).
Proof.
  exists pre, "". now rewrite append_empty_r.
Qed.


(** Symbolic execution of an operation that performs one exchange. *)
Ltac unfold_client :=
  cbv [run after exchange
       saveFlowToDatabase updateFlowInDatabase uploadFlowsToDatabase
       deleteFlowFromDatabase saveFlowStyleToDatabase
       onLogin autoLogin renewAccessToken getLoggedUser addUser getUsersPage
       deleteUser updateUser resetPassword getApiKey createApiKey deleteApiKey
       getRepoStars
       api_get api_post api_patch api_delete api_request
       try_catch bind await ret throw
       console_error console_log console_write get_prop new_Error] in *.

Ltac split_cases H :=
  repeat (cbn in *;
          match type of H with
          | context [match respond ?a ?h ?r with _ => _ end] =>
              destruct (respond a h r) eqn:?
          | context [if ?b then _ else _] => destruct b eqn:?
          | context [match lookup ?k ?f with _ => _ end] =>
              destruct (lookup k f) eqn:?
          | context [match data ?r with _ => _ end] =>
              destruct (data r) eqn:?
          | context [match ?v with VUndefined => _ | _ => _ end] =>
              is_var v; destruct v
          | context [match ?t with Text _ => _ | Fails _ => _ end] =>
              destruct t eqn:?
          end).

Ltac one_exchange H :=
  let r := fresh "r" in
  let Hs := fresh "Hs" in
  let Hr := fresh "Hr" in
  destruct H as [r [Hs Hr]];
  split_cases Hs;
  apply app_singleton_inv in Hs; subst r;
  match goal with
  | E : respond ?a ?h ?q = _, E' : respond ?a ?h ?q = _ |- _ =>
      rewrite E in E'; try discriminate E'; inversion E'; subst; clear E'
  end.

Ltac strict_policy :=
  let H := fresh "H" in
  intros ? ? H; unfold_client; one_exchange H;
  [ split; intros Hst; [rewrite Hst in *; discriminate |];
    eexists; split; [reflexivity | apply contains_suffix]
  | match goal with
    | E : negb (_ =? _)%Z = false |- _ =>
        apply negb_false_iff, Z.eqb_eq in E
    end;
    split; intros Hst; [reflexivity | contradiction] ].

Ltac lenient_policy :=
  let H := fresh "H" in
  intros ? ? H; unfold_client; one_exchange H;
  match goal with
  | E : (_ =? _)%Z = true |- _ =>
      apply Z.eqb_eq in E; split; intros Hst; [reflexivity | contradiction]
  | E : (_ =? _)%Z = false |- _ =>
      apply Z.eqb_neq in E; split; intros Hst; [contradiction | reflexivity]
  end.

(** *** The flow operations follow the strict policy *)

Lemma saveFlowToDatabase_strict f :
  status_contract api (saveFlowToDatabase BASE_URL_API api f) 201.
Proof. strict_policy. Qed.





(** *** The user and API-key operations follow the lenient policy *)

Lemma deleteUser_lenient id :
  lenient_contract api (deleteUser BASE_URL_API api id) 200 VUndefined.
Proof. lenient_policy. Qed.

Lemma updateUser_lenient id u :
  lenient_contract api (updateUser BASE_URL_API api id u) 200 VUndefined.
Proof. lenient_policy. Qed.

Lemma resetPassword_lenient id u :
  lenient_contract api (resetPassword BASE_URL_API api id u) 200 VUndefined.
Proof. lenient_policy. Qed.

Lemma getApiKey_lenient :
  lenient_contract api (getApiKey BASE_URL_API api) 200 VUndefined.
Proof. lenient_policy. Qed.

Lemma createApiKey_lenient n :
  lenient_contract api (createApiKey BASE_URL_API api n) 200 VUndefined.
Proof. lenient_policy. Qed.

Lemma deleteApiKey_lenient k :
  lenient_contract api (deleteApiKey BASE_URL_API api k) 200 VUndefined.
Proof. lenient_policy. Qed.

Lemma onLogin_lenient user :
  lenient_contract api (onLogin BASE_URL_API api user) 200 VUndefined.
Proof. lenient_policy. Qed.

Lemma autoLogin_lenient :
  lenient_contract api (autoLogin BASE_URL_API api) 200 VUndefined.
Proof. lenient_policy. Qed.


Lemma getUsersPage_lenient skip limit :
  lenient_contract api (getUsersPage BASE_URL_API api skip limit) 200 (VArr []).
Proof. lenient_policy. Qed.

(** *** Each of them makes its request, whatever comes back *)

Ltac always_one_request :=
  intros w; unfold_client; cbn;
  match goal with
  | |- context [match respond ?a ?h ?r with _ => _ end] =>
      exists r; destruct (respond a h r) as [resp|e]; cbn;
      [destruct (status resp =? 200)%Z|]; reflexivity
  end.

Lemma onLogin_one_request user :
  one_request (onLogin BASE_URL_API api user).
Proof. always_one_request. Qed.

Lemma autoLogin_one_request : one_request (autoLogin BASE_URL_API api).
Proof. always_one_request. Qed.

Lemma getUsersPage_one_request skip limit :
  one_request (getUsersPage BASE_URL_API api skip limit).
Proof. always_one_request. Qed.

(** *** [addUser] reports the backend's detail *)

Lemma addUser_detail u :
  detail_contract api (addUser BASE_URL_API api u) 201.
Proof.
  intros w resp H. unfold_client. one_exchange H.
  all: try match goal with
    | E : negb (_ =? _)%Z = true |- _ =>
        apply negb_true_iff, Z.eqb_neq in E
    | E : negb (_ =? _)%Z = false |- _ =>
        apply negb_false_iff, Z.eqb_eq in E
    end.
  all: split; intros Hst; try contradiction; try reflexivity.
  all: eexists; split; [reflexivity |].
  all: intros fs d Hd Hl;
       match goal with
       | E : data ?r = _, Hd' : data ?r = VObj _ |- _ =>
           rewrite E in Hd'; try discriminate Hd'; inversion Hd'; subst
       end.
  all: match goal with
       | E : lookup ?k ?f = _, Hl' : lookup ?k ?f = Some (VStr _) |- _ =>
           rewrite E in Hl'; try discriminate Hl'; inversion Hl'; subst
       end.
  all: reflexivity.
Qed.
(** *** What is sent, and what happens when the transport fails *)

Lemma saveFlowToDatabase_sends f w :
  sent (after (saveFlowToDatabase BASE_URL_API api f) w)
  = (sent w ++ [mkRequest POST (VStr (BASE_URL_API ++ "flows/"))
                  (Some (PData (VObj [("name", VStr (flow_name f));
                                      ("data", flow_data f);
                                      ("description",
                                       VStr (flow_description f))])))
                  []])%list.
Proof.
  unfold_client. cbn.
  destruct (respond api _ _) as [a|e]; cbn; [|reflexivity].
  destruct (negb (status a =? 201)%Z); reflexivity.
Qed.


Lemma getRepoStars_swallows owner repo w e :
  exchange api (getRepoStars api owner repo) w (Rejected e) ->
  run (getRepoStars api owner repo) w = Return VNull.
Proof.
  intros H. unfold_client. one_exchange H. reflexivity.
Qed.

Lemma getRepoStars_field owner repo w resp :
  exchange api (getRepoStars api owner repo) w (Fulfilled resp) ->
  run (getRepoStars api owner repo) w
  = Return (match data resp with
            | VUndefined | VNull => VNull
            | body => prop_or_undefined body "stargazers_count"
            end).
Proof.
  intros H. unfold_client. one_exchange H.
  all: match goal with E : data _ = _ |- _ => rewrite E end.
  all: cbn; try match goal with E : lookup _ _ = _ |- _ => rewrite E end.
  all: reflexivity.
Qed.

Lemma getRepoStars_total owner repo w :
  exists v, run (getRepoStars api owner repo) w = Return v.
Proof.
  unfold_client. cbn.
  destruct (respond api _ _) as [a|e]; cbn; [|eauto].
  destruct (data a); cbn; eauto.
  destruct (lookup _ _); cbn; eauto.
Qed.

Lemma renewAccessToken_empty w :
  renewAccessToken BASE_URL_API api "" w = (Return None, w).
Proof. reflexivity. Qed.

Lemma renewAccessToken_sends token w :
  token <> "" ->
  sent (after (renewAccessToken BASE_URL_API api token) w)
  = (sent w ++ [mkRequest POST
                  (VStr (BASE_URL_API ++ "refresh?token=" ++ token))
                  None []])%list.
Proof.
  intros Hne. destruct token as [|c t]; [contradiction|].
  unfold_client. cbn.
  destruct (respond api _ _); reflexivity.
Qed.

Lemma renewAccessToken_envelope token w :
  token <> "" ->
  forall resp,
    exchange api (renewAccessToken BASE_URL_API api token) w (Fulfilled resp) ->
    run (renewAccessToken BASE_URL_API api token) w = Return (Some resp).
Proof.
  intros Hne resp H. destruct token as [|c t]; [contradiction|].
  unfold_client. one_exchange H. reflexivity.
Qed.

(** *** [Promise.all] *)

Lemma all_arrived_spec n arrived :
  all_arrived n arrived = true <-> (forall i, (i < n)%nat -> In i arrived).
Proof.
  unfold all_arrived. rewrite forallb_forall. split.
  - intros H i Hi.
    assert (Hin : In i (seq 0 n)) by (apply in_seq; lia).
    apply H, existsb_exists in Hin. destruct Hin as [j [Hj Heq]].
    apply Nat.eqb_eq in Heq. now subst.
  - intros H i Hi. apply in_seq in Hi.
    apply existsb_exists. exists i. split; [apply H; lia | apply Nat.eqb_refl].
Qed.

Lemma collect_fulfilled {A} (ps : list (Promise A)) vals i p :
  collect ps = Some vals -> nth_error ps i = Some p -> exists a, p = Fulfilled a.
Proof.
  revert vals i. induction ps as [|q ps IH]; intros vals i Hc Hn.
  - destruct i; discriminate.
  - simpl in Hc. destruct q as [a|e]; [|discriminate].
    destruct (collect ps) as [l|] eqn:El; [|discriminate].
    destruct i as [|i]; simpl in Hn.
    + inversion Hn. eauto.
    + eapply IH; eauto.
Qed.

Lemma settle_all_step {A} (ps : list (Promise A)) schedule arrived :
  settle_all ps schedule arrived =
  if all_arrived (List.length ps) arrived then
    match collect ps with
    | Some l => Return l
    | None => Pending
    end
  else
    match schedule with
    | [] => Pending
    | i :: later =>
        match nth_error ps i with
        | Some (Rejected e) => Throw e
        | Some (Fulfilled _) => settle_all ps later (i :: arrived)
        | None => settle_all ps later arrived
        end
    end.
Proof. destruct schedule; reflexivity. Qed.

(** When every promise is fulfilled, any schedule that lets all of them
    settle delivers the values in index order. *)
Lemma settle_all_fulfilled {A} (ps : list (Promise A)) vals :
  collect ps = Some vals ->
  forall schedule arrived,
    (forall i, (i < List.length ps)%nat -> In i arrived \/ In i schedule) ->
    settle_all ps schedule arrived = Return vals.
Proof.
  intros Hc schedule.
  induction schedule as [|i later IH]; intros arrived Hcov;
    rewrite settle_all_step.
  - assert (Hall : all_arrived (List.length ps) arrived = true).
    { apply all_arrived_spec. intros i Hi.
      destruct (Hcov i Hi) as [H|[]]; exact H. }
    now rewrite Hall, Hc.
  - destruct (all_arrived (List.length ps) arrived) eqn:Hall.
    + now rewrite Hc.
    + destruct (nth_error ps i) as [p|] eqn:Hn.
      * destruct (collect_fulfilled ps vals i p Hc Hn) as [a ->].
        apply IH. intros j Hj.
        destruct (Hcov j Hj) as [H|[H|H]]; simpl; auto.
      * apply IH. intros j Hj.
        destruct (Hcov j Hj) as [H|[H|H]]; auto.
        subst j. apply nth_error_None in Hn. lia.
Qed.

(** When some promise is rejected, any schedule in which it settles makes
    the whole reject, with one of the rejections. *)
Lemma settle_all_rejected {A} (ps : list (Promise A)) j e0 :
  nth_error ps j = Some (Rejected e0) ->
  forall schedule arrived,
    (forall i, In i arrived -> exists a, nth_error ps i = Some (Fulfilled a)) ->
    In j schedule ->
    exists e, In (Rejected e) ps /\ settle_all ps schedule arrived = Throw e.
Proof.
  intros Hj schedule.
  induction schedule as [|i later IH]; intros arrived Hok Hin;
    [destruct Hin|].
  rewrite settle_all_step.
  assert (Hall : all_arrived (List.length ps) arrived = false).
  { destruct (all_arrived (List.length ps) arrived) eqn:E; [|reflexivity].
    assert (Hlt : (j < List.length ps)%nat)
      by (apply nth_error_Some; congruence).
    destruct (Hok j (proj1 (all_arrived_spec _ _) E j Hlt)) as [a Ha].
    congruence. }
  rewrite Hall.
  destruct (nth_error ps i) as [[a|e]|] eqn:Hn.
  - apply IH.
    + intros k [<-|Hk]; eauto.
    + destruct Hin as [->|Hin]; [congruence | exact Hin].
  - exists e. split; [eapply nth_error_In; eauto | reflexivity].
  - apply IH; [exact Hok|].
    destruct Hin as [->|Hin]; [congruence | exact Hin].
Qed.

(** *** The listing filter and the fan-out *)

Lemma is_json_file_entry file w :
  listing_entry file -> is_json_file file w = (Return (json_name file), w).
Proof.
  intros [fields [s [-> Hl]]].
  unfold is_json_file, json_name, prop_or_undefined, get_prop, bind, ret.
  now rewrite Hl.
Qed.

Lemma filterM_listing entries w :
  Forall listing_entry entries ->
  filterM is_json_file entries w = (Return (filter json_name entries), w).
Proof.
  induction 1 as [|file rest Hf _ IH]; [reflexivity|].
  simpl. unfold bind at 1. rewrite (is_json_file_entry _ _ Hf).
  unfold bind at 1. rewrite IH. unfold ret.
  destruct (json_name file); reflexivity.
Qed.

Lemma filter_listing entries :
  Forall listing_entry entries -> Forall listing_entry (filter json_name entries).
Proof.
  intros H. apply Forall_forall. intros x Hx. apply filter_In in Hx.
  rewrite Forall_forall in H. now apply H.
Qed.

Lemma fetch_content_entry file w :
  listing_entry file ->
  fetch_content api file w
  = (Return (then_data (respond api (sent w) (download_request file))),
     mkWorld (sent w ++ [download_request file])%list (console w)).
Proof.
  intros [fields [s [-> _]]].
  unfold fetch_content, spawn, download_request, prop_or_undefined,
    get_prop, bind, api_get, api_request, ret.
  destruct (lookup "download_url" fields); reflexivity.
Qed.

Lemma mapM_fetch files :
  Forall listing_entry files ->
  forall w,
    mapM (fetch_content api) files w
    = (Return (map then_data (follow_ups api (sent w) files)),
       mkWorld (sent w ++ map download_request files)%list (console w)).
Proof.
  induction 1 as [|file rest Hf _ IH]; intros w.
  - simpl. unfold ret. destruct w. simpl. now rewrite app_nil_r.
  - simpl. unfold bind at 1. rewrite (fetch_content_entry _ _ Hf).
    unfold bind at 1. rewrite IH. unfold ret. simpl.
    now rewrite <- app_assoc.
Qed.

Lemma follow_ups_length hist files :
  List.length (follow_ups api hist files) = List.length files.
Proof.
  revert hist. induction files as [|f rest IH]; intros hist; simpl;
    [reflexivity | now rewrite IH].
Qed.

Lemma collect_then_data (ps : list (Promise Response)) :
  (forall p, In p ps -> exists r, p = Fulfilled r) ->
  exists bodies,
    collect (map then_data ps) = Some bodies
    /\ Forall2 (fun p b => exists r, p = Fulfilled r /\ b = data r) ps bodies.
Proof.
  induction ps as [|p ps IH]; intros H.
  - exists []. split; [reflexivity | constructor].
  - destruct (H p (or_introl eq_refl)) as [r ->].
    destruct IH as [bodies [Hc Hf]]; [intros q Hq; apply H; now right|].
    exists (data r :: bodies). simpl. rewrite Hc. split; [reflexivity|].
    constructor; eauto.
Qed.

Lemma rejected_then_data (ps : list (Promise Response)) e :
  In (Rejected e) (map then_data ps) <-> In (Rejected e) ps.
Proof.
  rewrite in_map_iff. split.
  - intros [[r|e'] [Heq Hin]]; simpl in Heq; [discriminate|].
    now inversion Heq; subst.
  - intros Hin. exists (Rejected e). now split.
Qed.

(** The run of [getExamples] once the listing has arrived. *)
Lemma getExamples_run st entries schedule w :
  respond api (sent w) listing_request
  = Fulfilled (mkResponse st (VArr entries)) ->
  Forall listing_entry entries ->
  getExamples api schedule w
  = (match settle_all
             (map then_data
                  (follow_ups api (sent w ++ [listing_request])
                              (filter json_name entries)))
             schedule [] with
     | Return bodies => Return (VArr bodies)
     | Throw e => Throw e
     | Pending => Pending
     end,
     mkWorld (sent w ++ listing_request
                :: map download_request (filter json_name entries))%list
             (console w)).
Proof.
  intros Hl Hwf.
  unfold getExamples, api_get, api_request.
  unfold bind at 1. fold listing_request. rewrite Hl.
  unfold bind at 1. simpl await. unfold ret at 1.
  unfold bind at 1. simpl js_filter. rewrite (filterM_listing _ _ Hwf).
  unfold bind at 1. rewrite (mapM_fetch _ (filter_listing _ Hwf)).
  unfold bind, Promise_all, ret. simpl sent. simpl console.
  rewrite <- app_assoc. simpl.
  destruct (settle_all _ _ _); reflexivity.
Qed.

(** ** The claims *)


(** C2.  Once the directory listing of N entries has arrived, [getExamples]
    has handed the transport exactly 1 + M requests, M being the number of
    entries whose name ends in [.json]: the listing request and one download
    per such entry, in listing order.  Whatever the order in which the
    downloads settle, if they all succeed the result is the sequence of
    their M bodies in the order of the filtered listing, and if one of them
    fails the whole operation raises. *)
Theorem getExamples_fan_out (st : Z) (entries : list value)
        (schedule : list nat) (w : World) :
  respond api (sent w) listing_request
  = Fulfilled (mkResponse st (VArr entries)) ->
  Forall listing_entry entries ->
  complete schedule (List.length (filter json_name entries)) ->
  let files := filter json_name entries in
  let downloads := follow_ups api (sent w ++ [listing_request]) files in
  sent (after (getExamples api schedule) w)
  = (sent w ++ listing_request :: map download_request files)%list
  /\ List.length (sent (after (getExamples api schedule) w))
     = (List.length (sent w) + (1 + List.length files))%nat
  /\ ((forall p, In p downloads -> exists r, p = Fulfilled r) ->
      exists bodies,
        run (getExamples api schedule) w = Return (VArr bodies)
        /\ List.length bodies = List.length files
        /\ Forall2 (fun p b => exists r, p = Fulfilled r /\ b = data r)
                   downloads bodies)
  /\ (forall e, In (Rejected e) downloads ->
      exists e', In (Rejected e') downloads
                 /\ run (getExamples api schedule) w = Throw e').
Proof.
  intros Hl Hwf Hsched files downloads.
  unfold run, after. rewrite (getExamples_run st entries schedule w Hl Hwf).
  fold files. fold downloads. simpl fst. simpl snd. simpl sent.
  split; [reflexivity|]. split.
  { rewrite length_app. simpl. now rewrite length_map. }
  split.
  - intros Hall. destruct (collect_then_data downloads Hall) as [bodies [Hc Hf]].
    exists bodies.
    rewrite (settle_all_fulfilled _ _ Hc).
    + split; [reflexivity|]. split; [|exact Hf].
      apply Forall2_length in Hf. rewrite <- Hf.
      apply follow_ups_length.
    + intros i Hi. right. apply Hsched.
      rewrite length_map in Hi. unfold downloads in Hi.
      now rewrite follow_ups_length in Hi.
  - intros e He. apply rejected_then_data in He.
    apply In_nth_error in He. destruct He as [j Hj].
    assert (Hlt : (j < List.length files)%nat).
    { assert (H : (j < List.length (map then_data downloads))%nat)
        by (apply nth_error_Some; congruence).
      rewrite length_map in H. unfold downloads in H.
      now rewrite follow_ups_length in H. }
    destruct (settle_all_rejected _ j e Hj schedule [])
      as [e' [Hin He']]; [intros i [] | now apply Hsched |].
    exists e'. rewrite He'. split; [now apply rejected_then_data | reflexivity].
Qed.

(** C3.  [saveFlowToDatabase] posts to [flows/] a body made of exactly the
    [name], [data] and [description] of its input ([id] and [style] are left
    out); answered with 201 it returns the response body verbatim; answered
    with 500 it raises an error whose message contains ["500"]. *)
Theorem saveFlowToDatabase_scenario (f : FlowType) (w : World) :
  sent (after (saveFlowToDatabase BASE_URL_API api f) w)
  = (sent w ++ [mkRequest POST (VStr (BASE_URL_API ++ "flows/"))
                  (Some (PData (VObj [("name", VStr (flow_name f));
                                      ("data", flow_data f);
                                      ("description",
                                       VStr (flow_description f))])))
                  []])%list
  /\ (forall B,
        exchange api (saveFlowToDatabase BASE_URL_API api f) w
                 (Fulfilled (mkResponse 201 B)) ->
        run (saveFlowToDatabase BASE_URL_API api f) w = Return B)
  /\ (forall B,
        exchange api (saveFlowToDatabase BASE_URL_API api f) w
                 (Fulfilled (mkResponse 500 B)) ->
        raises (run (saveFlowToDatabase BASE_URL_API api f) w)
               (contains "500")).
Proof.
  split; [apply saveFlowToDatabase_sends|]. split; intros B H.
  - now apply (saveFlowToDatabase_strict f w _ H).
  - apply (saveFlowToDatabase_strict f w _ H). discriminate.
Qed.

(** C4.  [onLogin] and [autoLogin] each hand the transport exactly one
    request; when the transport answers it with a response they return the
    decoded body if the status is 200 and return [undefined], raising
    nothing, for any other status. *)
Theorem login_status_policy :
  (forall user,
      one_request (onLogin BASE_URL_API api user)
      /\ lenient_contract api (onLogin BASE_URL_API api user) 200 VUndefined)
  /\ one_request (autoLogin BASE_URL_API api)
  /\ lenient_contract api (autoLogin BASE_URL_API api) 200 VUndefined.
Proof.
  split; [intros user; split | split].
  - apply onLogin_one_request.
  - apply onLogin_lenient.
  - apply autoLogin_one_request.
  - apply autoLogin_lenient.
Qed.

(** C5.  [renewAccessToken] called with the empty (falsy) token hands the
    transport nothing and returns no value; called with a non-empty token it
    hands the transport exactly one POST whose URL carries the token as the
    query parameter [token]. *)
Theorem renewAccessToken_policy (w : World) :
  (run (renewAccessToken BASE_URL_API api "") w = Return None
   /\ sent (after (renewAccessToken BASE_URL_API api "") w) = sent w)
  /\ (forall token,
        token <> "" ->
        sent (after (renewAccessToken BASE_URL_API api token) w)
        = (sent w ++ [mkRequest POST
                        (VStr (BASE_URL_API ++ "refresh?token=" ++ token))
                        None []])%list).
Proof.
  split.
  - unfold run, after. now rewrite renewAccessToken_empty.
  - intros token Hne. now apply renewAccessToken_sends.
Qed.

(** C6.  [addUser] answered with a status other than 201 (such as 400) and a
    body whose [detail] is the string [d] (such as ["username taken"]) raises
    an error whose message equals [d]. *)
Theorem addUser_reports_detail (u : value) (w : World) (st : Z)
        (fields : list (string * value)) (d : string) :
  exchange api (addUser BASE_URL_API api u) w
           (Fulfilled (mkResponse st (VObj fields))) ->
  st <> 201%Z ->
  lookup "detail" fields = Some (VStr d) ->
  run (addUser BASE_URL_API api u) w = Throw (JsError d).
Proof.
  intros H Hst Hd.
  destruct (proj2 (addUser_detail u w _ H) Hst) as [e [Hrun He]].
  rewrite Hrun. now rewrite (He fields d eq_refl Hd).
Qed.


(** C8.  [getUsersPage] hands the transport exactly one request; when the
    transport answers it with a response, [getUsersPage] returns the decoded
    sequence if the status is 200 and the empty sequence for any other
    status. *)
Theorem getUsersPage_policy (skip limit : Z) :
  one_request (getUsersPage BASE_URL_API api skip limit)
  /\ lenient_contract api (getUsersPage BASE_URL_API api skip limit) 200
                      (VArr []).
Proof.
  split; [apply getUsersPage_one_request | apply getUsersPage_lenient].
Qed.

(** C9.  [getRepoStars] never raises: when the transport fails, or the body
    cannot be read because it is [null] or [undefined], it returns [null];
    on a response whose body is an object it returns the body's
    [stargazers_count] field. *)
Theorem getRepoStars_policy (owner repo : string) (w : World) :
  (forall e,
      exchange api (getRepoStars api owner repo) w (Rejected e) ->
      run (getRepoStars api owner repo) w = Return VNull)
  /\ (forall resp,
        exchange api (getRepoStars api owner repo) w (Fulfilled resp) ->
        (data resp = VNull \/ data resp = VUndefined ->
         run (getRepoStars api owner repo) w = Return VNull)
        /\ (forall fields count,
              data resp = VObj fields ->
              lookup "stargazers_count" fields = Some count ->
              run (getRepoStars api owner repo) w = Return count))
  /\ (forall e, run (getRepoStars api owner repo) w <> Throw e).
Proof.
  split; [intros e; apply getRepoStars_swallows|]. split.
  - intros resp H. rewrite (getRepoStars_field _ _ _ _ H). split.
    + intros [-> | ->]; reflexivity.
    + intros fields count -> Hl. simpl. now rewrite Hl.
  - intros e. destruct (getRepoStars_total owner repo w) as [v ->].
    discriminate.
Qed.

(** C10.  [deleteUser], [updateUser], [resetPassword], [createApiKey],
    [deleteApiKey] and [getApiKey], given a response whose status is not
    200, return [undefined]: nothing is raised and no body is yielded. *)
Theorem non_200_returns_undefined (w : World) (resp : Response) :
  status resp <> 200%Z ->
  (forall id,
      exchange api (deleteUser BASE_URL_API api id) w (Fulfilled resp) ->
      run (deleteUser BASE_URL_API api id) w = Return VUndefined)
  /\ (forall id u,
        exchange api (updateUser BASE_URL_API api id u) w (Fulfilled resp) ->
        run (updateUser BASE_URL_API api id u) w = Return VUndefined)
  /\ (forall id u,
        exchange api (resetPassword BASE_URL_API api id u) w (Fulfilled resp) ->
        run (resetPassword BASE_URL_API api id u) w = Return VUndefined)
  /\ (forall n,
        exchange api (createApiKey BASE_URL_API api n) w (Fulfilled resp) ->
        run (createApiKey BASE_URL_API api n) w = Return VUndefined)
  /\ (forall k,
        exchange api (deleteApiKey BASE_URL_API api k) w (Fulfilled resp) ->
        run (deleteApiKey BASE_URL_API api k) w = Return VUndefined)
  /\ (exchange api (getApiKey BASE_URL_API api) w (Fulfilled resp) ->
      run (getApiKey BASE_URL_API api) w = Return VUndefined).
Proof.
  intros Hst. repeat split; intros.
  - now apply (deleteUser_lenient id w resp).
  - now apply (updateUser_lenient id u w resp).
  - now apply (resetPassword_lenient id u w resp).
  - now apply (createApiKey_lenient n w resp).
  - now apply (deleteApiKey_lenient k w resp).
  - now apply (getApiKey_lenient w resp).
Qed.

(** ** Further properties of the client *)

Ltac unfold_further :=
  cbv [logs_failures sends_only rethrows envelope_contract outcome_of
       error_line log_line no_line
       getAll sendAll postValidateCode postValidatePrompt getHealth
       getBuildStatus postCustomComponent getVersion
       readFlowsFromDatabase downloadFlowsFromDatabase getFlowFromDatabase
       getFlowStylesFromDatabase] in *;
  unfold_client.

(** Case analysis on everything the run of an operation branches on. *)
Ltac run_cases :=
  repeat (cbn;
          match goal with
          | |- context [match respond ?a ?h ?r with _ => _ end] =>
              destruct (respond a h r) eqn:?
          | |- context [if ?b then _ else _] => destruct b eqn:?
          | |- context [match lookup ?k ?f with _ => _ end] =>
              destruct (lookup k f) eqn:?
          | |- context [match data ?r with _ => _ end] =>
              destruct (data r) eqn:?
          | |- context [match ?v with VUndefined => _ | _ => _ end] =>
              is_var v; destruct v
          | |- context [match ?t with Text _ => _ | Fails _ => _ end] =>
              destruct t eqn:?
          end).

Ltac sends_one := intros w; unfold_further; run_cases; reflexivity.



Ltac conjuncts := repeat match goal with |- _ /\ _ => split end; intros.


Ltac logs_one := intros w; unfold_further; run_cases; reflexivity.

Ltac quiet_one :=
  let H := fresh "H" in
  intros w resp H; unfold_further; one_exchange H; reflexivity.


(** X2.  In each of the nine strict flow operations every failure, whether
    raised by the transport or by the status check, is written exactly once
    to [console.error] as the error itself, and a successful run writes
    nothing. *)
Theorem strict_operations_log_failures :
  (forall f, logs_failures (saveFlowToDatabase BASE_URL_API api f))
  /\ (forall f, logs_failures (updateFlowInDatabase BASE_URL_API api f))
  /\ (forall fs, logs_failures (uploadFlowsToDatabase BASE_URL_API api fs))
  /\ (forall id, logs_failures (deleteFlowFromDatabase BASE_URL_API api id))
  /\ (forall s, logs_failures (saveFlowStyleToDatabase BASE_URL_API api s))
  /\ logs_failures (readFlowsFromDatabase BASE_URL_API api)
  /\ logs_failures (downloadFlowsFromDatabase BASE_URL_API api)
  /\ (forall id, logs_failures (getFlowFromDatabase BASE_URL_API api id))
  /\ logs_failures (getFlowStylesFromDatabase BASE_URL_API api).
Proof. conjuncts; logs_one. Qed.




(** X6.  In the lenient operations a response never reaches the console:
    a status other than 200 is dropped without a trace. *)
Theorem lenient_operations_silent :
  (forall id, quiet_on_response api (deleteUser BASE_URL_API api id))
  /\ (forall id u, quiet_on_response api (updateUser BASE_URL_API api id u))
  /\ (forall id u, quiet_on_response api (resetPassword BASE_URL_API api id u))
  /\ quiet_on_response api (getApiKey BASE_URL_API api)
  /\ (forall n, quiet_on_response api (createApiKey BASE_URL_API api n))
  /\ (forall k, quiet_on_response api (deleteApiKey BASE_URL_API api k))
  /\ (forall user, quiet_on_response api (onLogin BASE_URL_API api user))
  /\ quiet_on_response api (autoLogin BASE_URL_API api)
  /\ quiet_on_response api (getLoggedUser BASE_URL_API api)
  /\ (forall skip limit,
        quiet_on_response api (getUsersPage BASE_URL_API api skip limit)).
Proof. conjuncts; quiet_one. Qed.

(** X7.  Each flow operation whose path holds no number hands the transport
    exactly one request, the same whatever the answer: the method, the path
    under [BASE_URL_API], the body and the headers below.
    [updateFlowInDatabase] sends only the name, data and description of the
    flow; its id goes into the path. *)
Theorem flow_operations_endpoints :
  (forall f,
      sends_only (updateFlowInDatabase BASE_URL_API api f)
        (mkRequest PATCH (VStr (BASE_URL_API ++ "flows/" ++ flow_id f))
           (Some (PData (VObj [("name", VStr (flow_name f));
                               ("data", flow_data f);
                               ("description", VStr (flow_description f))])))
           []))
  /\ (forall fs,
        sends_only (uploadFlowsToDatabase BASE_URL_API api fs)
          (mkRequest POST (VStr (BASE_URL_API ++ "flows/upload/"))
             (Some (PForm fs)) []))
  /\ (forall id,
        sends_only (deleteFlowFromDatabase BASE_URL_API api id)
          (mkRequest DELETE (VStr (BASE_URL_API ++ "flows/" ++ id)) None []))
  /\ (forall s,
        sends_only (saveFlowStyleToDatabase BASE_URL_API api s)
          (mkRequest POST (VStr (BASE_URL_API ++ "flow_styles/"))
             (Some (PData s))
             [("accept", "application/json");
              ("Content-Type", "application/json")]))
  /\ sends_only (readFlowsFromDatabase BASE_URL_API api)
       (mkRequest GET (VStr (BASE_URL_API ++ "flows/")) None [])
  /\ sends_only (downloadFlowsFromDatabase BASE_URL_API api)
       (mkRequest GET (VStr (BASE_URL_API ++ "flows/download/")) None [])
  /\ sends_only (getFlowStylesFromDatabase BASE_URL_API api)
       (mkRequest GET (VStr (BASE_URL_API ++ "flow_styles/")) None []).
Proof. conjuncts; sends_one. Qed.

(** X8.  Each user, login and API-key operation whose path holds no number
    hands the transport exactly one request, the same whatever the answer:
    the method, path, body and headers below. *)
Theorem user_operations_endpoints :
  (forall user,
      sends_only (onLogin BASE_URL_API api user)
        (mkRequest POST (VStr (BASE_URL_API ++ "login"))
           (Some (PData (VStr (URLSearchParams_toString
                                 [("username", username user);
                                  ("password", password user)]))))
           [("Content-Type", "application/x-www-form-urlencoded")]))
  /\ sends_only (autoLogin BASE_URL_API api)
       (mkRequest GET (VStr (BASE_URL_API ++ "auto_login")) None [])
  /\ sends_only (getLoggedUser BASE_URL_API api)
       (mkRequest GET (VStr (BASE_URL_API ++ "users/whoami")) None [])
  /\ (forall u,
        sends_only (addUser BASE_URL_API api u)
          (mkRequest POST (VStr (BASE_URL_API ++ "users/"))
             (Some (PData u)) []))
  /\ (forall id,
        sends_only (deleteUser BASE_URL_API api id)
          (mkRequest DELETE (VStr (BASE_URL_API ++ "users/" ++ id)) None []))
  /\ (forall id u,
        sends_only (updateUser BASE_URL_API api id u)
          (mkRequest PATCH (VStr (BASE_URL_API ++ "users/" ++ id))
             (Some (PData u)) []))
  /\ (forall id u,
        sends_only (resetPassword BASE_URL_API api id u)
          (mkRequest PATCH
             (VStr (BASE_URL_API ++ "users/" ++ id ++ "/reset-password"))
             (Some (PData u)) []))
  /\ sends_only (getApiKey BASE_URL_API api)
       (mkRequest GET (VStr (BASE_URL_API ++ "api_key/")) None [])
  /\ (forall n,
        sends_only (createApiKey BASE_URL_API api n)
          (mkRequest POST (VStr (BASE_URL_API ++ "api_key/"))
             (Some (PData (VObj [("name", VStr n)]))) []))
  /\ (forall k,
        sends_only (deleteApiKey BASE_URL_API api k)
          (mkRequest DELETE (VStr (BASE_URL_API ++ "api_key/" ++ k)) None [])).
Proof. conjuncts; sends_one. Qed.

(** X9.  Each operation without a status check hands the transport exactly
    one request, the same whatever the answer.  [getHealth] and
    [getRepoStars] do not go through [BASE_URL_API]; [postCustomComponent]
    sends the code alone, whatever its second argument. *)
Theorem unchecked_operations_endpoints :
  sends_only (getAll BASE_URL_API api)
    (mkRequest GET (VStr (BASE_URL_API ++ "all")) None [])
  /\ (forall d,
        sends_only (sendAll BASE_URL_API api d)
          (mkRequest POST (VStr (BASE_URL_API ++ "predict"))
             (Some (PData d)) []))
  /\ (forall c,
        sends_only (postValidateCode BASE_URL_API api c)
          (mkRequest POST (VStr (BASE_URL_API ++ "validate/code"))
             (Some (PData (VObj [("code", VStr c)]))) []))
  /\ (forall n t f,
        sends_only (postValidatePrompt BASE_URL_API api n t f)
          (mkRequest POST (VStr (BASE_URL_API ++ "validate/prompt"))
             (Some (PData (VObj [("name", VStr n); ("template", VStr t);
                                 ("frontend_node", f)]))) []))
  /\ sends_only (getHealth api) (mkRequest GET (VStr "/health") None [])
  /\ (forall id,
        sends_only (getBuildStatus BASE_URL_API api id)
          (mkRequest GET (VStr (BASE_URL_API ++ "build/" ++ id ++ "/status"))
             None []))
  /\ (forall c a,
        sends_only (postCustomComponent BASE_URL_API api c a)
          (mkRequest POST (VStr (BASE_URL_API ++ "custom_component"))
             (Some (PData (VObj [("code", VStr c)]))) []))
  /\ sends_only (getVersion BASE_URL_API api)
       (mkRequest GET (VStr (BASE_URL_API ++ "version")) None [])
  /\ (forall owner repo,
        sends_only (getRepoStars api owner repo)
          (mkRequest GET
             (VStr ("https://api.github.com/repos/" ++ owner ++ "/" ++ repo))
             None [])).
Proof. conjuncts; sends_one. Qed.




(** *** Edge cases of the fan-out *)

Lemma listing_entry_or_throw file :
  listing_entry file
  \/ exists t, forall w, is_json_file file w = (Throw (TypeError t), w).
Proof.
  unfold listing_entry, is_json_file, get_prop, bind, ret, throw.
  destruct file as [| |b|n|s|items|fields]; try (right; eexists; reflexivity).
  destruct (lookup "name" fields) as [[| |b|n|s|items|fs]|] eqn:El;
    try (right; eexists; reflexivity).
  left. eauto.
Qed.

Lemma filterM_malformed entries :
  ~ Forall listing_entry entries ->
  exists t, forall w,
      filterM is_json_file entries w = (Throw (TypeError t), w).
Proof.
  induction entries as [|file rest IH]; intros Hbad.
  - exfalso. apply Hbad. constructor.
  - destruct (listing_entry_or_throw file) as [Hok | [t Ht]].
    + destruct IH as [t Ht].
      { intros Hrest. apply Hbad. now constructor. }
      exists t. intros w. simpl. unfold bind at 1.
      rewrite (is_json_file_entry _ _ Hok). unfold bind at 1. now rewrite Ht.
    + exists t. intros w. simpl. unfold bind at 1. now rewrite Ht.
Qed.

Lemma rejected_not_arrived {A} (ps : list (Promise A)) j e arrived :
  nth_error ps j = Some (Rejected e) ->
  (forall i, In i arrived -> exists a, nth_error ps i = Some (Fulfilled a)) ->
  all_arrived (List.length ps) arrived = false.
Proof.
  intros Hj Hok.
  destruct (all_arrived (List.length ps) arrived) eqn:E; [|reflexivity].
  assert (Hlt : (j < List.length ps)%nat) by (apply nth_error_Some; congruence).
  destruct (Hok j (proj1 (all_arrived_spec _ _) E j Hlt)) as [a Ha].
  congruence.
Qed.

(** The rejection that settles first is the one [Promise.all] reports. *)
Lemma settle_all_first_rejection {A} (ps : list (Promise A)) j e post :
  nth_error ps j = Some (Rejected e) ->
  forall pre arrived,
    (forall i, In i arrived -> exists a, nth_error ps i = Some (Fulfilled a)) ->
    (forall i e', In i pre -> nth_error ps i <> Some (Rejected e')) ->
    settle_all ps (pre ++ j :: post) arrived = Throw e.
Proof.
  intros Hj pre.
  induction pre as [|i pre IH]; intros arrived Hok Hpre;
    rewrite settle_all_step, (rejected_not_arrived ps j e arrived Hj Hok);
    simpl.
  - now rewrite Hj.
  - destruct (nth_error ps i) as [[a|e']|] eqn:Hn.
    + apply IH.
      * intros k [<-|Hk]; eauto.
      * intros k e' Hk. apply Hpre. now right.
    + exfalso. apply (Hpre i e'); [now left | exact Hn].
    + apply IH; [exact Hok|]. intros k e' Hk. apply Hpre. now right.
Qed.

(** X13.  When the listing request itself fails, [getExamples] raises that
    error, has handed the transport nothing but the listing request, and
    writes nothing to the console. *)
Theorem getExamples_listing_failure (schedule : list nat) (w : World) (e : exn) :
  respond api (sent w) listing_request = Rejected e ->
  run (getExamples api schedule) w = Throw e
  /\ sent (after (getExamples api schedule) w)
     = (sent w ++ [listing_request])%list
  /\ console (after (getExamples api schedule) w) = console w.
Proof.
  intros Hl.
  assert (Hrun : getExamples api schedule w
                 = (Throw e, mkWorld (sent w ++ [listing_request])%list
                                     (console w))).
  { unfold getExamples, api_get, api_request.
    unfold bind at 1. fold listing_request. now rewrite Hl. }
  unfold run, after. rewrite Hrun. split; [reflexivity|]. split; reflexivity.
Qed.

(** X14.  When the body of the listing is not an array of objects that each
    carry a string [name], [getExamples] raises a type error before any
    download is requested: one malformed entry anywhere in the listing is
    enough, and the listing request is the only one made. *)
Theorem getExamples_malformed_listing (schedule : list nat) (w : World)
        (st : Z) (body : value) :
  respond api (sent w) listing_request = Fulfilled (mkResponse st body) ->
  ~ (exists entries, body = VArr entries /\ Forall listing_entry entries) ->
  exists t,
    run (getExamples api schedule) w = Throw (TypeError t)
    /\ sent (after (getExamples api schedule) w)
       = (sent w ++ [listing_request])%list.
Proof.
  intros Hl Hbad.
  assert (Hrun : exists t,
             getExamples api schedule w
             = (Throw (TypeError t),
                mkWorld (sent w ++ [listing_request])%list (console w))).
  { unfold getExamples, api_get, api_request.
    unfold bind at 1. fold listing_request. rewrite Hl.
    unfold bind at 1. simpl await. unfold ret at 1.
    unfold bind at 1. simpl data.
    destruct body as [| |b|n|s|entries|fields];
      try (eexists; reflexivity).
    destruct (filterM_malformed entries) as [t Ht].
    { intros Hwf. apply Hbad. eauto. }
    exists t. simpl js_filter. now rewrite Ht. }
  destruct Hrun as [t Hrun]. exists t.
  unfold run, after. rewrite Hrun. split; reflexivity.
Qed.

(** X15.  When no entry of a well-formed listing has a name ending in
    [.json] (an empty listing included), [getExamples] returns the empty
    sequence after the listing request alone, without waiting for
    anything. *)
Theorem getExamples_nothing_to_fetch (schedule : list nat) (w : World)
        (st : Z) (entries : list value) :
  respond api (sent w) listing_request
  = Fulfilled (mkResponse st (VArr entries)) ->
  Forall listing_entry entries ->
  filter json_name entries = [] ->
  run (getExamples api schedule) w = Return (VArr [])
  /\ sent (after (getExamples api schedule) w)
     = (sent w ++ [listing_request])%list.
Proof.
  intros Hl Hwf Hnone.
  unfold run, after. rewrite (getExamples_run st entries schedule w Hl Hwf).
  rewrite Hnone. simpl. rewrite settle_all_step. split; reflexivity.
Qed.

(** X16.  When downloads fail, the error [getExamples] raises is the one of
    the failed download that settles first: if download [j] is rejected with
    [e] and no download settling before it is rejected, the result is
    [e]. *)
Theorem getExamples_first_rejection (st : Z) (entries : list value)
        (pre post : list nat) (j : nat) (e : exn) (w : World) :
  respond api (sent w) listing_request
  = Fulfilled (mkResponse st (VArr entries)) ->
  Forall listing_entry entries ->
  let downloads :=
    follow_ups api (sent w ++ [listing_request]) (filter json_name entries) in
  nth_error downloads j = Some (Rejected e) ->
  (forall i e', In i pre -> nth_error downloads i <> Some (Rejected e')) ->
  run (getExamples api (pre ++ j :: post)) w = Throw e.
Proof.
  intros Hl Hwf downloads Hj Hpre.
  unfold run. rewrite (getExamples_run st entries _ w Hl Hwf).
  fold downloads. simpl fst.
  rewrite (settle_all_first_rejection (map then_data downloads) j e post).
  - reflexivity.
  - rewrite nth_error_map, Hj. reflexivity.
  - intros i [].
  - intros i e' Hi Hn. rewrite nth_error_map in Hn.
    destruct (nth_error downloads i) as [[r|e'']|] eqn:Hd;
      simpl in Hn; try discriminate Hn.
    inversion Hn; subst. now apply (Hpre i e').
Qed.

Lemma settle_all_pending {A} (ps : list (Promise A)) j :
  (j < List.length ps)%nat ->
  forall schedule arrived,
    ~ In j arrived -> ~ In j schedule ->
    (forall i e, In i schedule -> nth_error ps i <> Some (Rejected e)) ->
    settle_all ps schedule arrived = Pending.
Proof.
  intros Hj schedule.
  induction schedule as [|i later IH]; intros arrived Ha Hs Hok;
    rewrite settle_all_step.
  - destruct (all_arrived (List.length ps) arrived) eqn:E; [|reflexivity].
    exfalso. apply Ha. now apply (proj1 (all_arrived_spec _ _) E).
  - destruct (all_arrived (List.length ps) arrived) eqn:E.
    { exfalso. apply Ha. now apply (proj1 (all_arrived_spec _ _) E). }
    destruct (nth_error ps i) as [[a|e]|] eqn:Hn.
    + apply IH.
      * intros [<-|Hin]; [apply Hs; now left | now apply Ha].
      * intros Hin. apply Hs. now right.
      * intros k e Hk. apply Hok. now right.
    + exfalso. apply (Hok i e); [now left | exact Hn].
    + apply IH; [exact Ha | |].
      * intros Hin. apply Hs. now right.
      * intros k e Hk. apply Hok. now right.
Qed.

(** X17.  When every download succeeds, the order in which they settle has
    no influence at all: any two schedules in which all of them settle give
    the same result and leave the same requests and console behind. *)
Theorem getExamples_order_independent (st : Z) (entries : list value)
        (s1 s2 : list nat) (w : World) :
  respond api (sent w) listing_request
  = Fulfilled (mkResponse st (VArr entries)) ->
  Forall listing_entry entries ->
  (forall p,
      In p (follow_ups api (sent w ++ [listing_request])
                       (filter json_name entries)) ->
      exists r, p = Fulfilled r) ->
  complete s1 (List.length (filter json_name entries)) ->
  complete s2 (List.length (filter json_name entries)) ->
  getExamples api s1 w = getExamples api s2 w.
Proof.
  intros Hl Hwf Hall H1 H2.
  rewrite !(getExamples_run st entries _ w Hl Hwf).
  destruct (collect_then_data _ Hall) as [bodies [Hc _]].
  rewrite !(settle_all_fulfilled _ _ Hc); [reflexivity | |];
    intros i Hi; right; rewrite length_map, follow_ups_length in Hi; auto.
Qed.

(** X18.  [getExamples] has no time limit and gives no partial result: as
    long as some download has not settled and none of those that have
    settled failed, the operation stays pending. *)
Theorem getExamples_waits_for_all (st : Z) (entries : list value)
        (schedule : list nat) (j : nat) (w : World) :
  respond api (sent w) listing_request
  = Fulfilled (mkResponse st (VArr entries)) ->
  Forall listing_entry entries ->
  let downloads :=
    follow_ups api (sent w ++ [listing_request]) (filter json_name entries) in
  (j < List.length (filter json_name entries))%nat ->
  ~ In j schedule ->
  (forall i e, In i schedule -> nth_error downloads i <> Some (Rejected e)) ->
  run (getExamples api schedule) w = Pending.
Proof.
  intros Hl Hwf downloads Hj Hnot Hok.
  unfold run. rewrite (getExamples_run st entries _ w Hl Hwf).
  fold downloads. simpl fst.
  rewrite (settle_all_pending (map then_data downloads) j); [reflexivity | | | |].
  - rewrite length_map. unfold downloads. now rewrite follow_ups_length.
  - intros [].
  - exact Hnot.
  - intros i e Hi Hn. rewrite nth_error_map in Hn.
    destruct (nth_error downloads i) as [[r|e']|] eqn:Hd;
      simpl in Hn; try discriminate Hn.
    inversion Hn; subst. now apply (Hok i e).
Qed.

(** *** The login body and the listing filter *)

Lemma form_decode_first_encode (c : ascii) (t : string) :
  form_decode_first (form_encode_byte c ++ t) = Some (c, t).
Proof.
  destruct c as [b0 b1 b2 b3 b4 b5 b6 b7].
  destruct b0, b1, b2, b3, b4, b5, b6, b7; reflexivity.
Qed.

Lemma form_encode_inj (s1 s2 : string) :
  form_encode s1 = form_encode s2 -> s1 = s2.
Proof.
  revert s2. induction s1 as [|c1 r1 IH]; intros [|c2 r2] H; simpl in H.
  - reflexivity.
  - apply (f_equal form_decode_first) in H.
    rewrite form_decode_first_encode in H. discriminate H.
  - apply (f_equal form_decode_first) in H.
    rewrite form_decode_first_encode in H. discriminate H.
  - apply (f_equal form_decode_first) in H.
    rewrite !form_decode_first_encode in H.
    inversion H; subst. f_equal. now apply IH.
Qed.

Lemma form_encode_byte_output (c : ascii) :
  string_forallb form_output_char (form_encode_byte c) = true.
Proof.
  destruct c as [b0 b1 b2 b3 b4 b5 b6 b7].
  destruct b0, b1, b2, b3, b4, b5, b6, b7; reflexivity.
Qed.

Lemma string_forallb_app P (a b : string) :
  string_forallb P (a ++ b) = string_forallb P a && string_forallb P b.
Proof.
  induction a as [|c a IH]; simpl; [reflexivity|].
  now rewrite IH, andb_assoc.
Qed.

Lemma form_encode_output (s : string) :
  string_forallb form_output_char (form_encode s) = true.
Proof.
  induction s as [|c s IH]; simpl; [reflexivity|].
  now rewrite string_forallb_app, form_encode_byte_output, IH.
Qed.

(** Two strings free of a separator, each followed by the separator, can be
    told apart from what follows them. *)
Lemma split_at_separator P (sep : ascii) (a b x y : string) :
  P sep = false ->
  string_forallb P a = true ->
  string_forallb P b = true ->
  a ++ String sep x = b ++ String sep y ->
  a = b /\ x = y.
Proof.
  intros Hsep. revert b.
  induction a as [|c a IH]; intros [|d b] Ha Hb H; simpl in *.
  - inversion H. now split.
  - inversion H; subst. apply andb_prop in Hb. destruct Hb as [Hd _].
    congruence.
  - inversion H; subst. apply andb_prop in Ha. destruct Ha as [Hc _].
    congruence.
  - inversion H; subst.
    apply andb_prop in Ha. apply andb_prop in Hb.
    destruct (IH b (proj2 Ha) (proj2 Hb) H2) as [-> ->]. now split.
Qed.

Lemma onLogin_sends user w :
  sent (after (onLogin BASE_URL_API api user) w)
  = (sent w ++ [mkRequest POST (VStr (BASE_URL_API ++ "login"))
                  (Some (PData (VStr (URLSearchParams_toString
                                        [("username", username user);
                                         ("password", password user)]))))
                  form_headers])%list.
Proof. unfold_client. run_cases; reflexivity. Qed.

(** X19.  For credentials that are well-formed text, the request of
    [onLogin] determines them: two logins that differ in user name or
    password hand the transport different requests.  No character of a
    credential, [&] and [=] included, can make one login pass for
    another. *)
Theorem onLogin_request_determines_user (u1 u2 : LoginType) (w : World) :
  utf8_valid (username u1) = true ->
  utf8_valid (password u1) = true ->
  utf8_valid (username u2) = true ->
  utf8_valid (password u2) = true ->
  u1 <> u2 ->
  sent (after (onLogin BASE_URL_API api u1) w)
  <> sent (after (onLogin BASE_URL_API api u2) w).
Proof.
  intros _ _ _ _ Hne H. apply Hne. clear Hne.
  rewrite !onLogin_sends in H. apply app_singleton_inv in H.
  inversion H as [Hbody]. clear H.
  destruct u1 as [n1 p1], u2 as [n2 p2]. simpl in Hbody.
  inversion Hbody as [Hrest]. clear Hbody.
  destruct (split_at_separator form_output_char "&"
              (form_encode n1) (form_encode n2)
              ("password=" ++ form_encode p1) ("password=" ++ form_encode p2))
    as [Hn Hp]; try apply form_encode_output; [reflexivity | exact Hrest |].
  inversion Hp as [Hp']. apply form_encode_inj in Hn. apply form_encode_inj in Hp'.
  now subst.
Qed.

Lemma length_append (a b : string) :
  String.length (a ++ b) = (String.length a + String.length b)%nat.
Proof.
  induction a as [|c a IH]; simpl; [reflexivity | now rewrite IH].
Qed.

Lemma substring_whole (s : string) : substring 0 (String.length s) s = s.
Proof.
  induction s as [|c s IH]; simpl; [reflexivity | now rewrite IH].
Qed.

Lemma substring_after (a b : string) (n : nat) :
  substring (String.length a) n (a ++ b) = substring 0 n b.
Proof.
  induction a as [|c a IH]; simpl; [reflexivity | exact IH].
Qed.

Lemma substring_cut (s : string) (n : nat) :
  (n <= String.length s)%nat ->
  s = substring 0 n s ++ substring n (String.length s - n) s.
Proof.
  revert n. induction s as [|c s IH]; intros [|n] Hn; simpl in *.
  - reflexivity.
  - lia.
  - now rewrite substring_whole.
  - f_equal. apply IH. lia.
Qed.

Lemma endsWith_spec (s suffix : string) :
  endsWith s suffix = true <-> exists stem, s = stem ++ suffix.
Proof.
  unfold endsWith. split.
  - intros H. apply andb_prop in H. destruct H as [Hlen Heq].
    apply Nat.leb_le in Hlen. apply String.eqb_eq in Heq.
    exists (substring 0 (String.length s - String.length suffix) s).
    rewrite (substring_cut s (String.length s - String.length suffix)) at 1
      by lia.
    f_equal.
    replace (String.length s - (String.length s - String.length suffix))%nat
      with (String.length suffix) by lia.
    exact Heq.
  - intros [stem ->]. rewrite length_append.
    apply andb_true_intro. split; [apply Nat.leb_le; lia|].
    replace (String.length stem + String.length suffix - String.length suffix)%nat
      with (String.length stem) by lia.
    rewrite substring_after, substring_whole. apply String.eqb_refl.
Qed.

(** X20.  The predicate [file.name.endsWith(".json")] of the listing filter
    answers true exactly on an object whose [name] is a string made of some
    stem, possibly empty, followed by ".json"; it answers false exactly on
    an object whose [name] is a string of another form; on anything else (no
    object, no [name], a [name] that is not a string) it raises a type
    error. *)
Theorem is_json_file_spec (file : value) (w : World) :
  (run (is_json_file file) w = Return true
   <-> exists fields stem,
       file = VObj fields
       /\ lookup "name" fields = Some (VStr (stem ++ ".json")))
  /\ (run (is_json_file file) w = Return false
      <-> exists fields s,
          file = VObj fields
          /\ lookup "name" fields = Some (VStr s)
          /\ ~ (exists stem, s = stem ++ ".json"))
  /\ ((exists t, run (is_json_file file) w = Throw (TypeError t))
      <-> ~ listing_entry file).
Proof.
  destruct (listing_entry_or_throw file) as [Hok | [t Ht]].
  - pose proof Hok as [fields [s [-> Hl]]].
    unfold run. rewrite (is_json_file_entry _ w Hok).
    unfold json_name, prop_or_undefined. rewrite Hl. simpl fst.
    split; [|split].
    + split.
      * intros H.
        assert (He : endsWith s ".json" = true) by congruence.
        apply endsWith_spec in He. destruct He as [stem ->]. eauto.
      * intros [fs [stem [Hf Hn]]]. inversion Hf; subst fs.
        rewrite Hl in Hn. inversion Hn; subst s.
        f_equal. apply endsWith_spec. eauto.
    + split.
      * intros H.
        assert (He : endsWith s ".json" = false) by congruence.
        exists fields, s.
        split; [reflexivity|]. split; [exact Hl|].
        intros Hend. apply endsWith_spec in Hend. congruence.
      * intros [fs [s' [Hf [Hn Hnot]]]]. inversion Hf; subst fs.
        rewrite Hl in Hn. inversion Hn; subst s'.
        destruct (endsWith s ".json") eqn:He; [|reflexivity].
        exfalso. apply Hnot. now apply endsWith_spec.
    + split; [intros [t H]; discriminate H | intros Hnot; contradiction].
  - unfold run. rewrite Ht. simpl fst.
    assert (Hbad : ~ listing_entry file).
    { intros Hok. pose proof (Ht w) as Hw.
      rewrite (is_json_file_entry _ w Hok) in Hw. discriminate Hw. }
    split; [|split].
    + split; [discriminate|].
      intros [fields [stem [-> Hl]]]. exfalso. apply Hbad.
      unfold listing_entry. eauto.
    + split; [discriminate|].
      intros [fields [s [-> [Hl _]]]]. exfalso. apply Hbad.
      unfold listing_entry. eauto.
    + split; [intros _; exact Hbad | intros _; eauto].
Qed.


End Contracts.

(** ** Concrete runs *)

Example form_encode_sample :
  URLSearchParams_toString [("username", "ann lee"); ("password", "p&1=x")]
  = "username=ann+lee&password=p%261%3Dx".
Proof. reflexivity. Qed.

Example endsWith_samples :
  endsWith "a.json" ".json" = true
  /\ endsWith "README.md" ".json" = false
  /\ endsWith "json" ".json" = false.
Proof. repeat split. Qed.

Example to_string_samples :
  to_string (VArr [VNum 1; VNull; VStr "x"]) = Text "1,,x"
  /\ to_string (VNum (-40)) = Text "-40"
  /\ to_string (VObj []) = Text "[object Object]"
  /\ to_string (VObj [("toString", VNum 1)])
     = Fails (NotPrimitive (VObj [("toString", VNum 1)]))
  /\ to_string (VArr [VStr "a"; VObj [("toString", VNull)]])
     = Fails (NotPrimitive (VObj [("toString", VNull)])).
Proof. repeat split. Qed.

Example onLogin_request :
  sent (after (onLogin "/api/v1/"
                 (constant_api (Fulfilled (mkResponse 200 VNull)))
                 (mkLogin "ann lee" "s3cret!"))
              empty_world)
  = [mkRequest POST (VStr "/api/v1/login")
       (Some (PData (VStr "username=ann+lee&password=s3cret%21")))
       [("Content-Type", "application/x-www-form-urlencoded")]].
Proof. reflexivity. Qed.

Ltac concrete_exchange := eexists; split; reflexivity.



Lemma sample_listing_entries : Forall listing_entry sample_listing.
Proof.
  repeat constructor; eexists; eexists; split; reflexivity.
Qed.

Lemma sample_schedule_complete :
  complete [1; 0]%nat (List.length (filter json_name sample_listing)).
Proof.
  intros i Hi. simpl in Hi.
  destruct i as [|[|i]]; simpl; auto. lia.
Qed.

Lemma getExamples_fan_out_witness :
  (run (getExamples (examples_api "") [1; 0]%nat) empty_world
   = Return (VArr [VObj [("from", VStr "u/a")]; VObj [("from", VStr "u/b")]])
   /\ List.length (sent (after (getExamples (examples_api "") [1; 0]%nat)
                               empty_world)) = 3%nat)
  /\ exists e,
      run (getExamples (examples_api "u/a") [1; 0]%nat) empty_world = Throw e.
Proof.
  split.
  - destruct (getExamples_fan_out (examples_api "") 200 sample_listing
                [1; 0]%nat empty_world eq_refl sample_listing_entries
                sample_schedule_complete)
      as (_ & Hlen & Hok & _).
    split; [|exact Hlen].
    destruct Hok as [bodies [Hrun [_ Hf]]].
    + intros p [<-|[<-|[]]]; eexists; reflexivity.
    + rewrite Hrun. simpl in Hf.
      inversion Hf as [|p1 b1 ps1 bs1 [r1 [E1 ->]] Hf1]; subst.
      inversion Hf1 as [|p2 b2 ps2 bs2 [r2 [E2 ->]] Hf2]; subst.
      inversion Hf2; subst.
      inversion E1; inversion E2; subst. reflexivity.
  - destruct (getExamples_fan_out (examples_api "u/a") 200 sample_listing
                [1; 0]%nat empty_world eq_refl sample_listing_entries
                sample_schedule_complete)
      as (_ & _ & _ & Hfail).
    destruct (Hfail (TransportError "Network Error")) as [e [_ He]];
      [left; reflexivity | eauto].
Defined.

Lemma saveFlowToDatabase_scenario_witness :
  run (saveFlowToDatabase "/api/v1/"
         (constant_api (Fulfilled (mkResponse 201 sample_saved_flow)))
         sample_flow) empty_world
  = Return sample_saved_flow
  /\ raises (run (saveFlowToDatabase "/api/v1/"
                    (constant_api (Fulfilled (mkResponse 500 VNull)))
                    sample_flow) empty_world)
            (contains "500").
Proof.
  split.
  - apply (saveFlowToDatabase_scenario "/api/v1/"
             (constant_api (Fulfilled (mkResponse 201 sample_saved_flow)))
             sample_flow empty_world).
    concrete_exchange.
  - apply (saveFlowToDatabase_scenario "/api/v1/"
             (constant_api (Fulfilled (mkResponse 500 VNull)))
             sample_flow empty_world) with (B := VNull).
    concrete_exchange.
Defined.

Lemma login_status_policy_witness :
  (run (onLogin "/api/v1/"
          (constant_api (Fulfilled (mkResponse 200 (VStr "token"))))
          (mkLogin "ann" "pw")) empty_world
   = Return (VStr "token")
   /\ run (onLogin "/api/v1/" (constant_api (Fulfilled (mkResponse 401 VNull)))
                   (mkLogin "ann" "pw")) empty_world
      = Return VUndefined)
  /\ (run (autoLogin "/api/v1/"
             (constant_api (Fulfilled (mkResponse 200 (VStr "token")))))
          empty_world
      = Return (VStr "token")
      /\ run (autoLogin "/api/v1/"
                (constant_api (Fulfilled (mkResponse 500 (VStr "down")))))
             empty_world
         = Return VUndefined).
Proof.
  destruct (login_status_policy "/api/v1/"
              (constant_api (Fulfilled (mkResponse 200 (VStr "token")))))
    as (Hlogin_ok & _ & Hauto_ok).
  destruct (login_status_policy "/api/v1/"
              (constant_api (Fulfilled (mkResponse 401 VNull))))
    as (Hlogin_ko & _).
  destruct (login_status_policy "/api/v1/"
              (constant_api (Fulfilled (mkResponse 500 (VStr "down")))))
    as (_ & _ & Hauto_ko).
  split; split.
  - apply (proj2 (Hlogin_ok (mkLogin "ann" "pw")) empty_world
                 (mkResponse 200 (VStr "token")));
      [concrete_exchange | reflexivity].
  - apply (proj2 (Hlogin_ko (mkLogin "ann" "pw")) empty_world
                 (mkResponse 401 VNull));
      [concrete_exchange | discriminate].
  - apply (Hauto_ok empty_world (mkResponse 200 (VStr "token")));
      [concrete_exchange | reflexivity].
  - apply (Hauto_ko empty_world (mkResponse 500 (VStr "down")));
      [concrete_exchange | discriminate].
Defined.

Lemma renewAccessToken_policy_witness :
  "abc" <> ""
  /\ sent (after (renewAccessToken "/api/v1/"
                    (constant_api (Fulfilled (mkResponse 200 VNull))) "abc")
                 empty_world)
     = [mkRequest POST (VStr "/api/v1/refresh?token=abc") None []].
Proof.
  split; [discriminate|].
  apply (renewAccessToken_policy "/api/v1/"
           (constant_api (Fulfilled (mkResponse 200 VNull))) empty_world).
  discriminate.
Defined.

Lemma addUser_reports_detail_witness :
  run (addUser "/api/v1/"
         (constant_api
            (Fulfilled (mkResponse 400
                          (VObj [("detail", VStr "username taken")]))))
         (VObj [("username", VStr "ann")])) empty_world
  = Throw (JsError "username taken").
Proof.
  apply (addUser_reports_detail "/api/v1/" _ _ empty_world 400
           [("detail", VStr "username taken")] "username taken");
    [concrete_exchange | discriminate | reflexivity].
Defined.


Lemma getUsersPage_policy_witness :
  run (getUsersPage "/api/v1/"
         (constant_api
            (Fulfilled (mkResponse 200 (VArr [VObj [("username", VStr "ann")]]))))
         0 10)
      empty_world
  = Return (VArr [VObj [("username", VStr "ann")]])
  /\ run (getUsersPage "/api/v1/"
            (constant_api (Fulfilled (mkResponse 500 (VStr "oops")))) 0 10)
         empty_world
     = Return (VArr []).
Proof.
  split.
  - apply (proj2 (getUsersPage_policy "/api/v1/"
                    (constant_api
                       (Fulfilled
                          (mkResponse 200
                             (VArr [VObj [("username", VStr "ann")]]))))
                    0 10)
                 empty_world
                 (mkResponse 200 (VArr [VObj [("username", VStr "ann")]])));
      [concrete_exchange | reflexivity].
  - apply (proj2 (getUsersPage_policy "/api/v1/"
                    (constant_api (Fulfilled (mkResponse 500 (VStr "oops"))))
                    0 10)
                 empty_world (mkResponse 500 (VStr "oops")));
      [concrete_exchange | discriminate].
Defined.

Lemma getRepoStars_policy_witness :
  run (getRepoStars (constant_api (Rejected (TransportError "Network Error")))
                    "logspace-ai" "langflow") empty_world
  = Return VNull
  /\ run (getRepoStars
            (constant_api
               (Fulfilled (mkResponse 200
                             (VObj [("id", VNum 7);
                                    ("stargazers_count", VNum 42)]))))
            "logspace-ai" "langflow") empty_world
     = Return (VNum 42).
Proof.
  split.
  - destruct (getRepoStars_policy
                (constant_api (Rejected (TransportError "Network Error")))
                "logspace-ai" "langflow" empty_world) as (Hfail & _).
    apply (Hfail (TransportError "Network Error")). concrete_exchange.
  - destruct (getRepoStars_policy
                (constant_api
                   (Fulfilled (mkResponse 200
                                 (VObj [("id", VNum 7);
                                        ("stargazers_count", VNum 42)]))))
                "logspace-ai" "langflow" empty_world) as (_ & Hok & _).
    eapply Hok; [concrete_exchange | reflexivity | reflexivity].
Defined.

Lemma non_200_returns_undefined_witness :
  status (mkResponse 404 (VStr "missing")) <> 200%Z
  /\ run (deleteUser "/api/v1/"
            (constant_api (Fulfilled (mkResponse 404 (VStr "missing")))) "u1")
         empty_world
     = Return VUndefined
  /\ run (getApiKey "/api/v1/"
            (constant_api (Fulfilled (mkResponse 404 (VStr "missing")))))
         empty_world
     = Return VUndefined.
Proof.
  assert (Hst : status (mkResponse 404 (VStr "missing")) <> 200%Z)
    by discriminate.
  destruct (non_200_returns_undefined "/api/v1/"
              (constant_api (Fulfilled (mkResponse 404 (VStr "missing"))))
              empty_world (mkResponse 404 (VStr "missing")) Hst)
    as (Hdel & _ & _ & _ & _ & Hget).
  split; [exact Hst|]. split.
  - apply Hdel. concrete_exchange.
  - apply Hget. concrete_exchange.
Defined.

(** ** Concrete runs of the further properties *)





Lemma lenient_operations_silent_witness :
  console (after (deleteUser "/api/v1/"
                    (constant_api (Fulfilled (mkResponse 404 VNull))) "u1")
                 empty_world)
  = [].
Proof.
  destruct (lenient_operations_silent "/api/v1/"
              (constant_api (Fulfilled (mkResponse 404 VNull))))
    as (Hdel & _).
  apply (Hdel "u1" empty_world (mkResponse 404 VNull)). concrete_exchange.
Defined.




Lemma getExamples_listing_failure_witness :
  run (getExamples (constant_api (Rejected (TransportError "Network Error")))
                   [])
      empty_world
  = Throw (TransportError "Network Error")
  /\ sent (after (getExamples
                    (constant_api (Rejected (TransportError "Network Error")))
                    [])
                 empty_world)
     = [listing_request].
Proof.
  destruct (getExamples_listing_failure
              (constant_api (Rejected (TransportError "Network Error")))
              [] empty_world (TransportError "Network Error") eq_refl)
    as (Hrun & Hsent & _).
  split; [exact Hrun | exact Hsent].
Defined.

Lemma malformed_listing_is_malformed :
  ~ (exists entries,
        VArr malformed_listing = VArr entries
        /\ Forall listing_entry entries).
Proof.
  intros [entries [Heq Hwf]]. inversion Heq; subst entries.
  inversion Hwf as [|x l _ Hrest]; subst.
  inversion Hrest as [|y l' [fields [s [Hy Hl]]] _]; subst.
  inversion Hy; subst. discriminate Hl.
Qed.

Lemma getExamples_malformed_listing_witness :
  exists t,
    run (getExamples
           (constant_api (Fulfilled (mkResponse 200 (VArr malformed_listing))))
           [0]%nat)
        empty_world
    = Throw (TypeError t)
    /\ sent (after (getExamples
                      (constant_api
                         (Fulfilled (mkResponse 200 (VArr malformed_listing))))
                      [0]%nat)
                   empty_world)
       = [listing_request].
Proof.
  apply (getExamples_malformed_listing
           (constant_api (Fulfilled (mkResponse 200 (VArr malformed_listing))))
           [0]%nat empty_world 200 (VArr malformed_listing) eq_refl
           malformed_listing_is_malformed).
Defined.

Lemma getExamples_nothing_to_fetch_witness :
  run (getExamples (constant_api (Fulfilled (mkResponse 200 (VArr [])))) [])
      empty_world
  = Return (VArr []).
Proof.
  apply (getExamples_nothing_to_fetch
           (constant_api (Fulfilled (mkResponse 200 (VArr []))))
           [] empty_world 200 [] eq_refl (Forall_nil _) eq_refl).
Defined.

Lemma getExamples_first_rejection_witness :
  run (getExamples failing_downloads_api [1; 0]%nat) empty_world
  = Throw (TransportError "u/b")
  /\ run (getExamples failing_downloads_api [0; 1]%nat) empty_world
     = Throw (TransportError "u/a").
Proof.
  split.
  - apply (getExamples_first_rejection failing_downloads_api 200
             sample_listing [] [0]%nat 1%nat (TransportError "u/b")
             empty_world eq_refl sample_listing_entries eq_refl).
    intros i e' [].
  - apply (getExamples_first_rejection failing_downloads_api 200
             sample_listing [] [1]%nat 0%nat (TransportError "u/a")
             empty_world eq_refl sample_listing_entries eq_refl).
    intros i e' [].
Defined.

Lemma sample_downloads_fulfilled :
  forall p,
    In p (follow_ups (examples_api "") (sent empty_world ++ [listing_request])
                     (filter json_name sample_listing)) ->
    exists r, p = Fulfilled r.
Proof.
  intros p [<-|[<-|[]]]; eexists; reflexivity.
Qed.

Lemma sample_schedule_in_order :
  complete [0; 1]%nat (List.length (filter json_name sample_listing)).
Proof.
  intros i Hi. simpl in Hi.
  destruct i as [|[|i]]; simpl; auto. lia.
Qed.

Lemma getExamples_order_independent_witness :
  getExamples (examples_api "") [0; 1]%nat empty_world
  = getExamples (examples_api "") [1; 0]%nat empty_world.
Proof.
  apply (getExamples_order_independent (examples_api "") 200 sample_listing
           [0; 1]%nat [1; 0]%nat empty_world eq_refl sample_listing_entries
           sample_downloads_fulfilled sample_schedule_in_order
           sample_schedule_complete).
Defined.

Lemma getExamples_waits_for_all_witness :
  run (getExamples (examples_api "") [0]%nat) empty_world = Pending.
Proof.
  apply (getExamples_waits_for_all (examples_api "") 200 sample_listing
           [0]%nat 1%nat empty_world eq_refl sample_listing_entries).
  - simpl. lia.
  - intros [H|[]]. discriminate H.
  - intros i e [<-|[]]. discriminate.
Defined.

Lemma onLogin_request_determines_user_witness :
  sent (after (onLogin "/api/v1/"
                 (constant_api (Fulfilled (mkResponse 200 VNull)))
                 (mkLogin "ann" "pw&username=root"))
              empty_world)
  <> sent (after (onLogin "/api/v1/"
                    (constant_api (Fulfilled (mkResponse 200 VNull)))
                    (mkLogin "root" "pw"))
                 empty_world).
Proof.
  apply (onLogin_request_determines_user "/api/v1/"
           (constant_api (Fulfilled (mkResponse 200 VNull)))
           (mkLogin "ann" "pw&username=root") (mkLogin "root" "pw")
           empty_world eq_refl eq_refl eq_refl eq_refl).
  discriminate.
Defined.


Example utf8_valid_samples :
  utf8_valid "ann lee" = true
  /\ utf8_valid (String (ascii_of_nat 195) (String (ascii_of_nat 169) ""))
     = true
  /\ utf8_valid (String (ascii_of_nat 237)
                   (String (ascii_of_nat 160) (String (ascii_of_nat 128) "")))
     = false
  /\ utf8_valid (String (ascii_of_nat 192) (String (ascii_of_nat 128) ""))
     = false.
Proof. repeat split. Qed.

Example login_body_escapes_separators :
  URLSearchParams_toString
    [("username", "ann"); ("password", "x&username=root")]
  = "username=ann&password=x%26username%3Droot".
Proof. reflexivity. Qed.
